(** * Literal recognizer of the Fortran front end (src/parse/literal.c)

    A shallow embedding of the recognizers of [literal.c] and the
    properties of its specification, checked against the code.

    Conventions of the embedding.
    - A [char] is an [ascii]; [code c] is its value as an integer.
    - A text buffer is a [list ascii].  The buffer is zero terminated: a
      read at or past the end of the list yields NUL ([peek]).  The list
      may hold bytes behind its first NUL; the text is what precedes it
      ([strlen]).  One read of the source leaves the text: the scan of
      [parse_character] for the closing quote starts at [ptr[2]] without
      a test of [ptr[1]], so that on a text which ends right after its
      opening quote it reads the byte behind the terminator, the one the
      list holds there, NUL where the list ends.
    - A pointer into the condensed text of a [sparse_t] is the offset
      [ptr : nat] into [sparse_strz]; [&ptr[i]] is [ptr + i] and the text
      seen from [ptr] is [text_at src ptr].
    - [unsigned] indices and lengths are [nat]: buffers are shorter than
      2^32 bytes, so that no index wraps.  Values ([uint64_t] accumulator,
      [unsigned] kinds and counts) are [Z] with the wrap-around written
      out ([u64], [u32]).
    - Diagnostics are collected in a log; a computation is a writer over
      that log which may also be undefined ([None]): the one loop of the
      source without an end-of-buffer test leaves the buffer when the
      parent text holds no closing quote.
    - An out-parameter of aggregate type ([string_t*], [parse_literal_t*])
      is passed in and returned; an integer out-parameter, which every
      caller reads after a success only, is returned next to the length. *)

From Stdlib Require Import ZArith Ascii String.
From stdpp Require Import base tactics option list.

Local Open Scope Z_scope.

(** ** Characters and <ctype.h> in the C locale *)

Definition code (c : ascii) : Z := Z.of_N (N_of_ascii c).

Definition NUL : ascii := ascii_of_nat 0.
Definition LF : ascii := ascii_of_nat 10.
Definition CR : ascii := ascii_of_nat 13.
Definition HT : ascii := ascii_of_nat 9.
Definition BS : ascii := ascii_of_nat 8.
Definition FF : ascii := ascii_of_nat 12.
Definition VT : ascii := ascii_of_nat 11.
Definition DQUOTE : ascii := ascii_of_nat 34.
Definition SQUOTE : ascii := ascii_of_nat 39.
Definition BACKSLASH : ascii := ascii_of_nat 92.

Definition in_range (lo hi c : ascii) : bool :=
  (code lo <=? code c) && (code c <=? code hi).

Definition isdigit (c : ascii) : bool := in_range "0" "9" c.
Definition isupper (c : ascii) : bool := in_range "A" "Z" c.
Definition islower (c : ascii) : bool := in_range "a" "z" c.
Definition isalnum (c : ascii) : bool := isdigit c || isupper c || islower c.

Definition toupper (c : ascii) : ascii :=
  if islower c then ascii_of_N (Z.to_N (code c - 32)) else c.

Definition u32 (z : Z) : Z := z mod 2 ^ 32.
Definition u64 (z : Z) : Z := z mod 2 ^ 64.

(** ** Text buffers *)

Definition peek (p : list ascii) (i : nat) : ascii := default NUL (p !! i).

Notation "p .[ i ]" := (peek p i) (at level 1, left associativity,
  format "p .[ i ]").

(** ** The source-position and diagnostics collaborator *)

(** Modelled from the spec: [sparse_t] and its functions are declared in
    headers outside [literal.c].  [sparse_parent_pointer] "returns the
    corresponding pointer into the pre-macro-expansion original buffer
    for a given position, or null if unavailable"; [sparse_sequential]
    is "true if two offsets are contiguous with no intervening
    whitespace/line-break".  Both are taken as they come. *)
Record sparse_t := {
  sparse_strz : list ascii;
  sparse_parent_pointer : nat -> option (list ascii);
  sparse_sequential : nat -> nat -> bool
}.

Definition text_at (src : sparse_t) (ptr : nat) : list ascii :=
  drop ptr (sparse_strz src).

Inductive diag :=
| Error (pos : nat) (msg : string)
| Warning (pos : nat) (msg : string).

(** A computation: undefined, or a result and the diagnostics emitted. *)
Definition M (A : Type) : Type := option (A * list diag).

Definition ret {A} (a : A) : M A := Some (a, []).

Definition bind {A B} (m : M A) (k : A -> M B) : M B :=
  match m with
  | None => None
  | Some (a, w) =>
      match k a with
      | None => None
      | Some (b, w') => Some (b, w ++ w')
      end
  end.

Definition undefined {A} : M A := None.

Notation "'do' x <- m ; k" := (bind m (fun x => k))
  (at level 10, x name, m at level 100, k at level 200,
   format "'[v' 'do'  x  <-  m ; '/' k ']'").
Notation "'do' ' pat <- m ; k" := (bind m (fun x => match x with pat => k end))
  (at level 10, pat pattern, m at level 100, k at level 200,
   format "'[v' 'do'  ' pat  <-  m ; '/' k ']'").
Notation "m ;; k" := (bind m (fun _ => k))
  (at level 100, k at level 200, right associativity).

(** [report_error] and [report_warning]: "fire-and-forget diagnostics,
    never alter control flow". *)
Definition sparse_error (src : sparse_t) (pos : nat) (msg : string) : M unit :=
  Some (tt, [Error pos msg]).
Definition sparse_warning (src : sparse_t) (pos : nat) (msg : string) : M unit :=
  Some (tt, [Warning pos msg]).

(** ** The base-digit engine *)

(** [is_base_digit c base value]: [None] is [false]; [Some v] is [true]
    with [v] the digit, which the source stores through [value] when that
    pointer is not null. *)
Definition is_base_digit (c : ascii) (base : Z) : option Z :=
  if negb (isalnum c) then None
  else
    let v :=
      if (code "0" <=? code c) && (code c <=? code "9")
      then u32 (code c - code "0")
      else u32 (10 + (code (toupper c) - code "A")) in
    if base <=? v then None else Some v.

(** The [for] loop of [parse_literal__base] from index [i] on, [rest]
    being the text from [ptr[i]].  [None]: the overflow test failed. *)
Fixpoint base_loop (base : Z) (value : bool) (rest : list ascii)
    (v : Z) (i : nat) : option (Z * nat) :=
  match rest with
  | [] => Some (v, i)
  | c :: rest' =>
      match is_base_digit c base with
      | None => Some (v, i)
      | Some d =>
          if value then
            let nv := u64 (v * 10 + d) in
            if negb (nv / base =? v) || negb (nv mod base =? d)
            then None
            else base_loop base value rest' nv (S i)
          else base_loop base value rest' v (S i)
      end
  end.

(** [parse_literal__base src ptr base quoted value]: [value] tells
    whether the pointer of the source is non-null.  The result is the
    length returned and the number stored through [value] (0 where
    nothing is stored). *)
Definition parse_literal__base (src : sparse_t) (ptr : nat)
    (base : Z) (quoted : bool) (value : bool) : M (nat * Z) :=
  let p := text_at src ptr in
  let i := 0%nat in
  let quote := if quoted then p.[i] else NUL in
  let i := if quoted then S i else i in
  if quoted && negb (Ascii.eqb quote DQUOTE) && negb (Ascii.eqb quote SQUOTE)
  then ret (0%nat, 0)
  else
    match is_base_digit p.[i] base with
    | None =>
        (if quoted
         then sparse_error src (ptr + i) "Valid digit expected in BOZ literal"
         else ret tt) ;;
        ret (0%nat, 0)
    | Some _ =>
        match base_loop base value (drop i p) 0 i with
        | None =>
            sparse_warning src ptr "Literal value exceeds 64-bit size" ;;
            ret (0%nat, 0)
        | Some (v, i) =>
            if quoted && negb (Ascii.eqb p.[i] quote)
            then
              sparse_error src (ptr + S i) "Invalid character in BOZ literal" ;;
              ret (0%nat, 0)
            else
              let i := if quoted then S i else i in
              (if negb quoted && negb (sparse_sequential src ptr i)
               then sparse_warning src ptr "Unexpected whitespace in literal"
               else ret tt) ;;
              ret (i, if value then v else 0)
        end
    end.

(** [parse_unsigned]: the length and the number stored through [value]. *)
Definition parse_unsigned (src : sparse_t) (ptr : nat) : M (nat * Z) :=
  do '(len, u) <- parse_literal__base src ptr 10 false true ;
  if (len =? 0)%nat then ret (0%nat, 0)
  else
    let v := u32 u in
    if negb (v =? u) then ret (0%nat, 0)
    else ret (len, v).

(** ** Literal values *)

(** Modelled from the spec: [str_ref_t], [string_t] and [parse_literal_t]
    are declared in headers outside [literal.c].  A [str_ref_t] is "a
    non-owning (pointer, length) pair borrowing from the original source
    buffer"; a [string_t] is "a heap-allocated, explicitly-length-tracked
    byte buffer" whose "allocation failure is representable as an empty
    sentinel state distinguishable from a genuine zero-length string". *)
Record str_ref_t := str_ref { sr_base : nat; sr_size : nat }.

Definition str_ref_text (src : sparse_t) (r : str_ref_t) : list ascii :=
  take (sr_size r) (text_at src (sr_base r)).

Inductive string_t :=
| STRING_EMPTY
| string_buf (base : list ascii).

Definition string_empty (s : string_t) : bool :=
  match s with STRING_EMPTY => true | string_buf _ => false end.

(** [s.base], the bytes of the buffer. *)
Definition string_base (s : string_t) : list ascii :=
  match s with STRING_EMPTY => [] | string_buf base => base end.

Inductive parse_literal_e :=
| PARSE_LITERAL_NUMBER
| PARSE_LITERAL_BINARY
| PARSE_LITERAL_OCTAL
| PARSE_LITERAL_HEX
| PARSE_LITERAL_HOLLERITH
| PARSE_LITERAL_CHARACTER
| PARSE_LITERAL_LOGICAL
| PARSE_LITERAL_COMPLEX.

(** The members the recognizers assign, each kept as a field of its own. *)
Record parse_literal_t := {
  lit_type : parse_literal_e;
  lit_kind : Z;
  lit_number : str_ref_t;
  lit_string : string_t;
  lit_logical : bool;
  lit_complex_left_number : str_ref_t;
  lit_complex_right_number : str_ref_t
}.

Definition set_type (t : parse_literal_e) (l : parse_literal_t) :=
  {| lit_type := t; lit_kind := lit_kind l; lit_number := lit_number l;
     lit_string := lit_string l; lit_logical := lit_logical l;
     lit_complex_left_number := lit_complex_left_number l;
     lit_complex_right_number := lit_complex_right_number l |}.
Definition set_kind (k : Z) (l : parse_literal_t) :=
  {| lit_type := lit_type l; lit_kind := k; lit_number := lit_number l;
     lit_string := lit_string l; lit_logical := lit_logical l;
     lit_complex_left_number := lit_complex_left_number l;
     lit_complex_right_number := lit_complex_right_number l |}.
Definition set_number (r : str_ref_t) (l : parse_literal_t) :=
  {| lit_type := lit_type l; lit_kind := lit_kind l; lit_number := r;
     lit_string := lit_string l; lit_logical := lit_logical l;
     lit_complex_left_number := lit_complex_left_number l;
     lit_complex_right_number := lit_complex_right_number l |}.
Definition set_string (s : string_t) (l : parse_literal_t) :=
  {| lit_type := lit_type l; lit_kind := lit_kind l; lit_number := lit_number l;
     lit_string := s; lit_logical := lit_logical l;
     lit_complex_left_number := lit_complex_left_number l;
     lit_complex_right_number := lit_complex_right_number l |}.
Definition set_logical (b : bool) (l : parse_literal_t) :=
  {| lit_type := lit_type l; lit_kind := lit_kind l; lit_number := lit_number l;
     lit_string := lit_string l; lit_logical := b;
     lit_complex_left_number := lit_complex_left_number l;
     lit_complex_right_number := lit_complex_right_number l |}.
Definition set_complex (left right : str_ref_t) (l : parse_literal_t) :=
  {| lit_type := lit_type l; lit_kind := lit_kind l; lit_number := lit_number l;
     lit_string := lit_string l; lit_logical := lit_logical l;
     lit_complex_left_number := left;
     lit_complex_right_number := right |}.

(** ** Radix literals *)

Definition parse_literal__binary (src : sparse_t) (ptr : nat)
    (literal : parse_literal_t) : M (nat * parse_literal_t) :=
  let p := text_at src ptr in
  if negb (Ascii.eqb (toupper p.[0]) "B") then ret (0%nat, literal)
  else
    do '(len, _) <- parse_literal__base src (ptr + 1) 2 true false ;
    if (len =? 0)%nat then ret (0%nat, literal)
    else
      let literal := set_number (str_ref (ptr + 1) len) literal in
      let literal := set_type PARSE_LITERAL_BINARY literal in
      ret ((len + 1)%nat, literal).

Definition parse_literal__octal (src : sparse_t) (ptr : nat)
    (literal : parse_literal_t) : M (nat * parse_literal_t) :=
  let p := text_at src ptr in
  if negb (Ascii.eqb (toupper p.[0]) "O") then ret (0%nat, literal)
  else
    do '(len, _) <- parse_literal__base src (ptr + 1) 8 true false ;
    if (len =? 0)%nat then ret (0%nat, literal)
    else
      let literal := set_number (str_ref (ptr + 1) len) literal in
      let literal := set_type PARSE_LITERAL_OCTAL literal in
      ret ((len + 1)%nat, literal).

Definition parse_literal__hex (src : sparse_t) (ptr : nat)
    (literal : parse_literal_t) : M (nat * parse_literal_t) :=
  let p := text_at src ptr in
  if negb (Ascii.eqb (toupper p.[0]) "X")
     && negb (Ascii.eqb (toupper p.[0]) "Z")
  then ret (0%nat, literal)
  else
    do '(len, _) <- parse_literal__base src (ptr + 1) 16 true false ;
    if (len =? 0)%nat then ret (0%nat, literal)
    else
      let literal := set_number (str_ref (ptr + 1) len) literal in
      let literal := set_type PARSE_LITERAL_HEX literal in
      ret ((len + 1)%nat, literal).

(** ** Recognizers that depend on collaborators outside [literal.c] *)

Inductive parse_keyword_e :=
| PARSE_KEYWORD_TRUE
| PARSE_KEYWORD_FALSE.

Section Recognizers.

(** Modelled from the spec: [string_create] belongs to the string-buffer
    primitives, "used only through their contract (create-with-capacity,
    copy, delete, emptiness-on-failure)".  [alloc_fails n] tells whether
    the allocation of [n] bytes fails. *)
Variable alloc_fails : nat -> bool.

(** Modelled from the spec: [parse_keyword] is the "shared keyword
    matcher" of the surrounding grammar; it returns the length matched,
    0 for none. *)
Variable parse_keyword : sparse_t -> nat -> parse_keyword_e -> M nat.

(** The content of an automatic [parse_literal_t] before anything is
    assigned to it. *)
Variable indeterminate : parse_literal_t.

(** [string_create(NULL, size)]: a buffer of [size] bytes, each of which
    the callers below assign before they return it. *)
Definition string_create (size : nat) : string_t :=
  if alloc_fails size then STRING_EMPTY else string_buf (replicate size NUL).

(** *** Hollerith literal *)

Definition is_line_end (c : ascii) : bool :=
  Ascii.eqb c CR || Ascii.eqb c LF || Ascii.eqb c NUL.

(** The copying loop of [parse_hollerith]; [prest] is the parent text
    from [pptr[j]] on.  The result is [(i, holl_pos, base)]. *)
Fixpoint hollerith_copy (p : list ascii) (holl_len : nat)
    (prest : list ascii) (i holl_pos : nat) (base : list ascii)
    : nat * nat * list ascii :=
  if (holl_len <=? holl_pos)%nat then (i, holl_pos, base)
  else
    match prest with
    | [] => (i, holl_pos, base)
    | c :: prest' =>
        if is_line_end c then (i, holl_pos, base)
        else
          let i := if Ascii.eqb p.[i] c then S i else i in
          hollerith_copy p holl_len prest' i (S holl_pos) (<[holl_pos := c]> base)
    end.

(** The padding loop, run [holl_len - holl_pos] times. *)
Fixpoint hollerith_pad (n : nat) (holl_pos : nat) (base : list ascii)
    : list ascii :=
  match n with
  | O => base
  | S n' => hollerith_pad n' (S holl_pos) (<[holl_pos := " "%char]> base)
  end.

Definition parse_hollerith (src : sparse_t) (ptr : nat) (string : string_t)
    : M (nat * string_t) :=
  let p := text_at src ptr in
  do '(i, holl_len) <- parse_unsigned src ptr ;
  if (i =? 0)%nat then ret (0%nat, string)
  else if negb (Ascii.eqb (toupper p.[i]) "H") then ret (0%nat, string)
  else
    match sparse_parent_pointer src (ptr + i) with
    | None => ret (0%nat, string)
    | Some pptr =>
        let i := (i + 1)%nat in
        let holl_len := Z.to_nat holl_len in
        let string := string_create holl_len in
        if string_empty string then ret (0%nat, string)
        else
          let '(i, holl_pos, base) :=
            hollerith_copy p holl_len (drop 1 pptr) i 0 (string_base string) in
          let base := hollerith_pad (holl_len - holl_pos) holl_pos base in
          ret (i, string_buf base)
    end.

Definition parse_literal__hollerith (src : sparse_t) (ptr : nat)
    (literal : parse_literal_t) : M (nat * parse_literal_t) :=
  do '(len, s) <- parse_hollerith src ptr (lit_string literal) ;
  let literal := set_string s literal in
  if (len =? 0)%nat then ret (0%nat, literal)
  else ret (len, set_type PARSE_LITERAL_HOLLERITH literal).

(** *** Character literal *)

(** The scan of the condensed text for the closing quote; [rest] is the
    text from [ptr[i]] on. *)
Fixpoint character_skip (quote : ascii) (rest : list ascii)
    (is_escaped : bool) (i : nat) : nat :=
  match rest with
  | [] => i
  | c :: rest' =>
      if negb (Ascii.eqb c NUL) && (negb (Ascii.eqb c quote) || is_escaped)
      then character_skip quote rest'
             (negb is_escaped && Ascii.eqb c BACKSLASH) (S i)
      else i
  end.

Inductive measured :=
| End_of_line
| Measured (j str_len : nat).

(** The first pass over the parent text; [prest] is the text from
    [pptr[j]] on.  The loop has no test for the end of the buffer:
    [None] when it runs past it. *)
Fixpoint character_measure (quote : ascii) (prest : list ascii)
    (is_escaped : bool) (j str_len : nat) : option measured :=
  match prest with
  | [] => None
  | c :: prest' =>
      if negb (Ascii.eqb c quote) || is_escaped then
        if Ascii.eqb c CR || Ascii.eqb c LF then Some End_of_line
        else if Ascii.eqb c BACKSLASH && negb is_escaped
        then character_measure quote prest' true (S j) str_len
        else character_measure quote prest' false (S j) (S str_len)
      else Some (Measured j str_len)
  end.

(** The [switch] over the escaped character. *)
Definition character_escape (src : sparse_t) (ptr : nat) (c : ascii) : M ascii :=
  if Ascii.eqb c "n" then ret LF
  else if Ascii.eqb c "r" then ret CR
  else if Ascii.eqb c "t" then ret HT
  else if Ascii.eqb c "b" then ret BS
  else if Ascii.eqb c "f" then ret FF
  else if Ascii.eqb c "v" then ret VT
  else if Ascii.eqb c "0" then ret NUL
  else if Ascii.eqb c SQUOTE then ret SQUOTE
  else if Ascii.eqb c DQUOTE then ret DQUOTE
  else if Ascii.eqb c BACKSLASH then ret BACKSLASH
  else
    sparse_warning src ptr "Unknown escape sequence in string, ignoring" ;;
    ret c.

(** The second pass; [chars] is [pptr[j]], ..., [pptr[str_end - 1]]. *)
Fixpoint character_decode (src : sparse_t) (ptr : nat) (chars : list ascii)
    (is_escaped : bool) (str_pos : nat) (base : list ascii) : M (list ascii) :=
  match chars with
  | [] => ret base
  | c0 :: chars' =>
      if is_escaped then
        do c <- character_escape src ptr c0 ;
        character_decode src ptr chars' false (S str_pos) (<[str_pos := c]> base)
      else if Ascii.eqb c0 BACKSLASH
      then character_decode src ptr chars' true str_pos base
      else character_decode src ptr chars' false (S str_pos) (<[str_pos := c0]> base)
  end.

Definition parse_character (src : sparse_t) (ptr : nat) (string : string_t)
    : M (nat * string_t) :=
  let p := text_at src ptr in
  let i := 0%nat in
  let quote := p.[i] in
  if negb (Ascii.eqb quote DQUOTE) && negb (Ascii.eqb quote SQUOTE)
  then ret (0%nat, string)
  else
    match sparse_parent_pointer src (ptr + i) with
    | None => ret (0%nat, string)
    | Some pptr =>
        let i := (i + 1)%nat in
        let i := character_skip quote (drop (S i) p) false (S i) in
        if negb (Ascii.eqb p.[i] quote)
        then sparse_error src ptr "Unterminated string" ;; ret (0%nat, string)
        else
          let i := S i in
          match character_measure quote (drop 1 pptr) false 1 0 with
          | None => undefined
          | Some End_of_line =>
              sparse_error src ptr
                "Unexpected end of line in character constant" ;;
              ret (0%nat, string)
          | Some (Measured j str_len) =>
              let str_end := j in
              let string := string_create str_len in
              if string_empty string then ret (0%nat, string)
              else
                do base <- character_decode src ptr
                             (take (str_end - 1) (drop 1 pptr)) false 0
                             (string_base string) ;
                ret (i, string_buf base)
          end
    end.

Definition parse_literal__character (src : sparse_t) (ptr : nat)
    (literal : parse_literal_t) : M (nat * parse_literal_t) :=
  do '(len, s) <- parse_character src ptr (lit_string literal) ;
  let literal := set_string s literal in
  if (len =? 0)%nat then ret (0%nat, literal)
  else ret (len, set_type PARSE_LITERAL_CHARACTER literal).

(** *** Logical literal *)

Definition parse_literal__logical (src : sparse_t) (ptr : nat)
    (literal : parse_literal_t) : M (nat * parse_literal_t) :=
  let p := text_at src ptr in
  let i := 0%nat in
  if negb (Ascii.eqb p.[i] ".") then ret (0%nat, literal)
  else
    let i := S i in
    do len <- parse_keyword src (ptr + i) PARSE_KEYWORD_TRUE ;
    let v := (0 <? len)%nat in
    do len <- (if (len =? 0)%nat
               then parse_keyword src (ptr + i) PARSE_KEYWORD_FALSE
               else ret len) ;
    if (len =? 0)%nat then ret (0%nat, literal)
    else
      let i := (i + len)%nat in
      if negb (Ascii.eqb p.[i] ".") then ret (0%nat, literal)
      else
        let i := S i in
        let literal := set_logical v literal in
        let literal := set_type PARSE_LITERAL_LOGICAL literal in
        ret (i, literal).

(** *** Numeric literal *)

(** [for (; isdigit(ptr[i]); i++);] with [rest] the text from [ptr[i]]. *)
Fixpoint skip_digits (rest : list ascii) (i : nat) : nat :=
  match rest with
  | [] => i
  | c :: rest' => if isdigit c then skip_digits rest' (S i) else i
  end.

Definition is_sign (c : ascii) : bool := Ascii.eqb c "-" || Ascii.eqb c "+".

(** [parse_literal__number] from the [sparse_sequential] test on. *)
Definition number_finish (src : sparse_t) (ptr : nat)
    (literal : parse_literal_t) (i : nat) (k : Z) (kind_ambiguous : bool)
    : M (nat * parse_literal_t) :=
  (if negb (sparse_sequential src ptr i)
   then sparse_warning src ptr "Unexpected whitespace in literal number"
   else ret tt) ;;
  (if kind_ambiguous
   then sparse_warning src ptr "Kind is ambiguous, ignoring exponent kind"
   else ret tt) ;;
  let literal := set_type PARSE_LITERAL_NUMBER literal in
  let literal := set_kind k literal in
  let literal := set_number (str_ref ptr i) literal in
  ret (i, literal).

Definition parse_literal__number (src : sparse_t) (ptr : nat)
    (literal : parse_literal_t) : M (nat * parse_literal_t) :=
  let p := text_at src ptr in
  let i := 0%nat in
  let i := if is_sign p.[i] then S i else i in
  let had_int := isdigit p.[i] in
  let i := skip_digits (drop i p) i in
  let had_fract := false in
  let '(i, had_fract) :=
    if Ascii.eqb p.[i] "."
    then
      let i := (i + 1)%nat in
      let had_fract := had_int || isdigit p.[i] in
      (skip_digits (drop i p) i, had_fract)
    else (i, had_fract) in
  let had_exponent :=
    Ascii.eqb (toupper p.[i]) "E" || Ascii.eqb (toupper p.[i]) "D" in
  let k := 0 in
  let '(had_exponent, k, i) :=
    if had_exponent
    then
      let j := (i + 1)%nat in
      let j := if is_sign p.[j] then S j else j in
      if negb (isdigit p.[i])
      then (false, k, i)
      else
        let j := skip_digits (drop j p) j in
        let k := if Ascii.eqb p.[i] "D" then 8 else k in
        (had_exponent, k, j)
    else (had_exponent, k, i) in
  if negb had_fract && negb had_int then ret (0%nat, literal)
  else
    let kind_ambiguous := false in
    if Ascii.eqb p.[i] "_"
    then
      let i := (i + 1)%nat in
      let ok := k in
      do '(len, k) <- parse_unsigned src (ptr + i) ;
      if (len =? 0)%nat then ret (0%nat, literal)
      else
        let i := (i + len)%nat in
        let kind_ambiguous := (0 <? ok) && negb (k =? ok) in
        number_finish src ptr literal i k kind_ambiguous
    else number_finish src ptr literal i k kind_ambiguous.

(** *** Complex literal *)

Definition parse_literal__complex (src : sparse_t) (ptr : nat)
    (literal : parse_literal_t) : M (nat * parse_literal_t) :=
  let p := text_at src ptr in
  let i := 0%nat in
  if negb (Ascii.eqb p.[i] "(") then ret (0%nat, literal)
  else
    let i := S i in
    let left_number_literal := indeterminate in
    do '(len, left_number_literal) <-
      parse_literal__number src (ptr + i) left_number_literal ;
    if (len =? 0)%nat then ret (0%nat, literal)
    else
      let i := (i + len)%nat in
      if negb (Ascii.eqb p.[i] ",") then ret (0%nat, literal)
      else
        let i := S i in
        let right_number_literal := indeterminate in
        do '(len, right_number_literal) <-
          parse_literal__number src (ptr + i) right_number_literal ;
        if (len =? 0)%nat then ret (0%nat, literal)
        else
          let i := (i + len)%nat in
          if negb (Ascii.eqb p.[i] ")") then ret (0%nat, literal)
          else
            let i := S i in
            let literal := set_type PARSE_LITERAL_COMPLEX literal in
            let literal :=
              set_complex (lit_number left_number_literal)
                          (lit_number right_number_literal) literal in
            ret (i, literal).

(** *** Dispatcher *)

(** [if (len == 0) len = f(src, ptr, &l);] *)
Definition try_next
    (f : sparse_t -> nat -> parse_literal_t -> M (nat * parse_literal_t))
    (src : sparse_t) (ptr : nat) (st : nat * parse_literal_t)
    : M (nat * parse_literal_t) :=
  let '(len, l) := st in
  if (len =? 0)%nat then f src ptr l else ret (len, l).

Definition parse_literal (src : sparse_t) (ptr : nat)
    (literal : parse_literal_t) : M (nat * parse_literal_t) :=
  let l := indeterminate in
  let l := set_kind 0 l in
  let len := 0%nat in
  do st <- try_next parse_literal__character src ptr (len, l) ;
  do st <- try_next parse_literal__hollerith src ptr st ;
  do st <- try_next parse_literal__complex src ptr st ;
  do st <- try_next parse_literal__binary src ptr st ;
  do st <- try_next parse_literal__octal src ptr st ;
  do st <- try_next parse_literal__hex src ptr st ;
  do st <- try_next parse_literal__logical src ptr st ;
  do '(len, l) <- try_next parse_literal__number src ptr st ;
  if (len =? 0)%nat then ret (0%nat, literal)
  else ret (len, l).

End Recognizers.

(** ** Concrete sources used in the examples *)

Definition chars (s : string) : list ascii := list_ascii_of_string s.

(** A source whose parent text is the condensed text itself, contiguous
    everywhere. *)
Definition plain_source (text : list ascii) : sparse_t :=
  {| sparse_strz := text;
     sparse_parent_pointer := fun pos => Some (drop pos text);
     sparse_sequential := fun _ _ => true |}.

Definition no_keyword : sparse_t -> nat -> parse_keyword_e -> M nat :=
  fun _ _ _ => ret 0%nat.

Definition never_fails : nat -> bool := fun _ => false.


Definition blank_literal : parse_literal_t :=
  {| lit_type := PARSE_LITERAL_NUMBER; lit_kind := 0;
     lit_number := str_ref 0 0; lit_string := STRING_EMPTY;
     lit_logical := false;
     lit_complex_left_number := str_ref 0 0;
     lit_complex_right_number := str_ref 0 0 |}.

(** ** Specification-side notions *)

Inductive radix := Binary | Octal | Hex.

Definition radix_base (r : radix) : Z :=
  match r with Binary => 2 | Octal => 8 | Hex => 16 end.

Definition radix_letters (r : radix) : list ascii :=
  match r with
  | Binary => chars "Bb"
  | Octal => chars "Oo"
  | Hex => chars "XxZz"
  end.

Definition radix_digits (r : radix) : list ascii :=
  match r with
  | Binary => chars "01"
  | Octal => chars "01234567"
  | Hex => chars "0123456789ABCDEFabcdef"
  end.

Definition radix_type (r : radix) : parse_literal_e :=
  match r with
  | Binary => PARSE_LITERAL_BINARY
  | Octal => PARSE_LITERAL_OCTAL
  | Hex => PARSE_LITERAL_HEX
  end.

Definition recognize_radix (r : radix)
    : sparse_t -> nat -> parse_literal_t -> M (nat * parse_literal_t) :=
  match r with
  | Binary => parse_literal__binary
  | Octal => parse_literal__octal
  | Hex => parse_literal__hex
  end.

Definition is_quote (c : ascii) : Prop := c = SQUOTE \/ c = DQUOTE.

(** The number a digit run denotes in base [b], without any bound. *)
Definition digit_value (c : ascii) : Z :=
  if isdigit c then code c - code "0" else 10 + (code (toupper c) - code "A").

Definition accumulate (b : Z) (s : list ascii) (v : Z) : Z :=
  fold_left (fun a c => b * a + digit_value c) s v.

Definition run_value (b : Z) (s : list ascii) : Z := accumulate b s 0.

Definition decimal_digit (c : ascii) : Prop := c ∈ chars "0123456789".

Definition overflow_message : string := "Literal value exceeds 64-bit size".

Definition emits_overflow (w : list diag) : Prop :=
  exists pos, Warning pos overflow_message ∈ w.

Definition ambiguity_message : string :=
  "Kind is ambiguous, ignoring exponent kind".

Definition emits_ambiguity (w : list diag) : Prop :=
  exists pos, Warning pos ambiguity_message ∈ w.

(** The shape the complex recognizer asks for: [(], a numeric literal of
    [len1] characters, [,], a numeric literal of [len2] characters, [)]. *)
Definition matches_number (src : sparse_t) (ptr : nat) (len : nat) : Prop :=
  len <> 0%nat
  /\ exists l0 l w, parse_literal__number src ptr l0 = Some (len, l, w).

Definition complex_shape (src : sparse_t) (ptr : nat) (len1 len2 : nat) : Prop :=
  (text_at src ptr).[0] = "("%char
  /\ matches_number src (ptr + 1) len1
  /\ (text_at src ptr).[1 + len1] = ","%char
  /\ matches_number src (ptr + (2 + len1)) len2
  /\ (text_at src ptr).[2 + len1 + len2] = ")"%char.

(** The recognizers the dispatcher tries, in its order. *)
Definition sub_recognizers (alloc_fails : nat -> bool)
    (parse_keyword : sparse_t -> nat -> parse_keyword_e -> M nat)
    (indeterminate : parse_literal_t)
    : list (sparse_t -> nat -> parse_literal_t -> M (nat * parse_literal_t)) :=
  [ parse_literal__character alloc_fails;
    parse_literal__hollerith alloc_fails;
    parse_literal__complex indeterminate;
    parse_literal__binary;
    parse_literal__octal;
    parse_literal__hex;
    parse_literal__logical parse_keyword;
    parse_literal__number ].

(** [f] returns 0 at [ptr], whatever the literal it is given to fill. *)
Definition returns_0
    (f : sparse_t -> nat -> parse_literal_t -> M (nat * parse_literal_t))
    (src : sparse_t) (ptr : nat) : Prop :=
  forall l, exists l' w, f src ptr l = Some (0%nat, l', w).

(** The character an escape pair denotes, read off the [switch] of
    [parse_character]. *)
Definition escape_value (c : ascii) : ascii :=
  if Ascii.eqb c "n" then LF
  else if Ascii.eqb c "r" then CR
  else if Ascii.eqb c "t" then HT
  else if Ascii.eqb c "b" then BS
  else if Ascii.eqb c "f" then FF
  else if Ascii.eqb c "v" then VT
  else if Ascii.eqb c "0" then NUL
  else c.

(** The bytes the content of a character literal denotes: a backslash
    that is not itself escaped gives no byte and escapes the next
    character. *)
Fixpoint unescape (is_escaped : bool) (content : list ascii) : list ascii :=
  match content with
  | [] => []
  | c :: content' =>
      if is_escaped then escape_value c :: unescape false content'
      else if Ascii.eqb c BACKSLASH then unescape true content'
      else c :: unescape false content'
  end.

(** The content of a character literal closed by [quote]: the quote, a
    carriage return and a line feed occur escaped only, and the content
    does not end inside an escape pair. *)
Fixpoint literal_content (quote : ascii) (is_escaped : bool)
    (content : list ascii) : Prop :=
  match content with
  | [] => is_escaped = false
  | c :: content' =>
      c <> CR /\ c <> LF
      /\ (is_escaped = false -> c <> quote)
      /\ literal_content quote
           (negb is_escaped && Ascii.eqb c BACKSLASH) content'
  end.

(** The beginning of a literal content: as [literal_content], but the
    text may stop anywhere, inside an escape pair as well. *)
Fixpoint literal_prefix (quote : ascii) (is_escaped : bool)
    (content : list ascii) : Prop :=
  match content with
  | [] => True
  | c :: content' =>
      c <> CR /\ c <> LF
      /\ (is_escaped = false -> c <> quote)
      /\ literal_prefix quote
           (negb is_escaped && Ascii.eqb c BACKSLASH) content'
  end.

(** The literal holds what its tag announces: a literal tagged as a
    character or Hollerith literal holds a buffer, not the empty
    sentinel. *)
Definition owned_ok (l : parse_literal_t) : Prop :=
  match lit_type l with
  | PARSE_LITERAL_CHARACTER | PARSE_LITERAL_HOLLERITH =>
      string_empty (lit_string l) = false
  | _ => True
  end.

(** The diagnostics of a decimal integer that goes through the
    dispatcher: those of the Hollerith attempt on the digits (the
    overflow warning when the value does not fit 64 bits, else the
    whitespace warning of the engine when the digits are not
    contiguous), then the whitespace warning of the numeric recognizer. *)
Definition integer_log (src : sparse_t) (ptr : nat) (ds : list ascii)
    : list diag :=
  (if 2 ^ 64 <=? run_value 10 ds then [Warning ptr overflow_message]
   else if sparse_sequential src ptr (length ds) then []
        else [Warning ptr "Unexpected whitespace in literal"])
  ++ (if sparse_sequential src ptr (length ds) then []
      else [Warning ptr "Unexpected whitespace in literal number"]).

(** [strlen]: the length of the zero-terminated text a buffer holds,
    the number of characters before its first NUL. *)
Fixpoint strlen (p : list ascii) : nat :=
  match p with
  | [] => 0%nat
  | c :: p' => if Ascii.eqb c NUL then 0%nat else S (strlen p')
  end.

(** ** Basic facts *)

(** A goal [~ emits_overflow w] or [~ emits_ambiguity w] on an explicit
    log [w]. *)
Ltac no_such_warning :=
  let pos := fresh "pos" in
  let H := fresh "H" in
  intros [pos H]; cbn in H;
  repeat (apply elem_of_cons in H as [H | H]; [discriminate H |]);
  by apply elem_of_nil in H.

#[global] Arguments is_base_digit : simpl never.
#[global] Arguments peek : simpl never.

Lemma bind_Some {A B} (m : M A) (k : A -> M B) b w :
  bind m k = Some (b, w) ->
  exists a w1 w2, m = Some (a, w1) /\ k a = Some (b, w2) /\ w = w1 ++ w2.
Proof.
  unfold bind. destruct m as [[a w1] |]; [| done].
  destruct (k a) as [[b' w2] |] eqn:Hk; [| done].
  intros [= <- <-]. by eexists _, _, _.
Qed.

Lemma text_at_plus src ptr k : text_at src (ptr + k) = drop k (text_at src ptr).
Proof. unfold text_at. by rewrite drop_drop. Qed.

Lemma peek_0 c (l : list ascii) : (c :: l).[0] = c.
Proof. reflexivity. Qed.

Lemma peek_S c (l : list ascii) i : (c :: l).[S i] = l.[i].
Proof. reflexivity. Qed.

Lemma peek_app_r (l1 l2 : list ascii) i : (l1 ++ l2).[length l1 + i] = l2.[i].
Proof. unfold peek. by rewrite lookup_app_r, Nat.add_comm, Nat.add_sub by lia. Qed.

Lemma peek_app_l (l1 l2 : list ascii) i :
  (i < length l1)%nat -> (l1 ++ l2).[i] = l1.[i].
Proof. intros. unfold peek. by rewrite lookup_app_l. Qed.

Lemma peek_drop (l : list ascii) k i : (drop k l).[i] = l.[k + i].
Proof. unfold peek. by rewrite lookup_drop. Qed.

Lemma quote_cases q : is_quote q ->
  negb (Ascii.eqb q DQUOTE) && negb (Ascii.eqb q SQUOTE) = false.
Proof. by intros [-> | ->]. Qed.

Lemma quote_not_digit q base : is_quote q -> is_base_digit q base = None.
Proof. by intros [-> | ->]. Qed.

Lemma radix_digit_valid r c :
  c ∈ radix_digits r -> is_Some (is_base_digit c (radix_base r)).
Proof.
  assert (forallb (fun c => bool_decide (is_Some (is_base_digit c (radix_base r))))
            (radix_digits r) = true) as H by (by destruct r).
  rewrite forallb_forall in H. intros Hc%list_elem_of_In.
  specialize (H c Hc). by apply bool_decide_eq_true in H.
Qed.

Lemma radix_letter_upper r c :
  c ∈ radix_letters r ->
  match r with
  | Binary => toupper c = "B"%char
  | Octal => toupper c = "O"%char
  | Hex => toupper c = "X"%char \/ toupper c = "Z"%char
  end.
Proof.
  destruct r; cbn; intros H; repeat (apply elem_of_cons in H as [-> | H]);
    try (by apply elem_of_nil in H); auto.
Qed.


Lemma base_loop_run base s rest v i :
  Forall (fun c => is_Some (is_base_digit c base)) s ->
  is_base_digit rest.[0] base = None ->
  base_loop base false (s ++ rest) v i = Some (v, (i + length s)%nat).
Proof.
  intros Hs Hrest. revert i.
  induction Hs as [| c s [d Hd] _ IH]; intros i; cbn.
  - rewrite Nat.add_0_r. destruct rest as [| c rest]; [done |].
    rewrite peek_0 in Hrest. cbn. by rewrite Hrest.
  - rewrite Hd, IH. f_equal. f_equal. lia.
Qed.

(** The engine on a quoted run, no value requested. *)
Lemma parse_literal__base_quoted src ptr base q s rest :
  is_quote q -> s <> [] ->
  Forall (fun c => is_Some (is_base_digit c base)) s ->
  text_at src ptr = q :: s ++ q :: rest ->
  parse_literal__base src ptr base true false
  = Some ((length s + 2)%nat, 0, []).
Proof.
  intros Hq Hne Hs Htext. unfold parse_literal__base. rewrite Htext.
  cbv zeta. cbn [andb]. rewrite peek_0, (quote_cases q Hq).
  destruct s as [| c s]; [done |].
  rewrite peek_S. cbn [app]. rewrite peek_0.
  destruct (Forall_cons_1 _ _ _ Hs) as [[d Hd] _]. rewrite Hd.
  change (drop 1 (q :: c :: s ++ q :: rest)) with ((c :: s) ++ q :: rest).
  rewrite (base_loop_run base (c :: s) (q :: rest) 0 1 Hs)
    by (rewrite peek_0; by apply quote_not_digit).
  change (q :: c :: s ++ q :: rest) with ([q] ++ (c :: s) ++ q :: rest).
  rewrite app_assoc.
  replace (1 + length (c :: s))%nat with (length ([q] ++ c :: s) + 0)%nat
    by (rewrite length_app; cbn; lia).
  rewrite peek_app_r, peek_0, Ascii.eqb_refl. cbn.
  do 3 f_equal. lia.
Qed.

Lemma radix_run_valid r s :
  Forall (fun c => c ∈ radix_digits r) s ->
  Forall (fun c => is_Some (is_base_digit c (radix_base r))) s.
Proof. intros Hs. eapply Forall_impl; [exact Hs |]. intros c. apply radix_digit_valid. Qed.

(** A radix recognizer on its letter, a quote, a digit run and the same
    quote: the slice runs from the opening to the closing quote. *)
Lemma recognize_radix_quoted r src ptr letter q s rest literal :
  letter ∈ radix_letters r -> is_quote q -> s <> [] ->
  Forall (fun c => c ∈ radix_digits r) s ->
  text_at src ptr = letter :: q :: s ++ q :: rest ->
  recognize_radix r src ptr literal
  = Some ((length s + 3)%nat,
          set_type (radix_type r)
            (set_number (str_ref (ptr + 1) (length s + 2)) literal), []).
Proof.
  intros Hl Hq Hne Hs Htext.
  assert (text_at src (ptr + 1) = q :: s ++ q :: rest) as Htext1
    by (by rewrite text_at_plus, Htext).
  pose proof (parse_literal__base_quoted src (ptr + 1) (radix_base r) q s rest
                Hq Hne (radix_run_valid r s Hs) Htext1) as Hbase.
  apply radix_letter_upper in Hl.
  destruct r; cbn [recognize_radix radix_base radix_type] in *.
  - unfold parse_literal__binary. rewrite Htext, peek_0, Hl, Hbase. cbn.
    replace (length s + 2 =? 0)%nat with false by (symmetry; apply Nat.eqb_neq; lia).
    do 3 f_equal. lia.
  - unfold parse_literal__octal. rewrite Htext, peek_0, Hl, Hbase. cbn.
    replace (length s + 2 =? 0)%nat with false by (symmetry; apply Nat.eqb_neq; lia).
    do 3 f_equal. lia.
  - unfold parse_literal__hex. rewrite Htext, peek_0, Hbase.
    replace (negb (Ascii.eqb (toupper letter) "X")
             && negb (Ascii.eqb (toupper letter) "Z")) with false
      by (by destruct Hl as [-> | ->]).
    cbn.
    replace (length s + 2 =? 0)%nat with false by (symmetry; apply Nat.eqb_neq; lia).
    do 3 f_equal. lia.
Qed.



(** ** Decimal accumulation *)

Lemma decimal_digit_base c :
  decimal_digit c ->
  is_base_digit c 10 = Some (digit_value c) /\ 0 <= digit_value c <= 9.
Proof.
  unfold decimal_digit. cbn. intros H.
  repeat (apply elem_of_cons in H as [-> | H]; [by vm_compute |]).
  by apply elem_of_nil in H.
Qed.

Lemma accumulate_ge s v :
  Forall decimal_digit s -> 0 <= v -> v <= accumulate 10 s v.
Proof.
  intros Hs. revert v. induction Hs as [| c s Hc _ IH]; intros v Hv; cbn.
  - lia.
  - destruct (decimal_digit_base c Hc) as [_ Hd].
    etrans; [| apply IH]; lia.
Qed.

(** One step of the overflow test of the engine in base 10: it passes
    exactly when the new value fits 64 bits. *)
Lemma overflow_test_exact v d :
  0 <= v < 2 ^ 64 -> 0 <= d <= 9 ->
  negb (u64 (v * 10 + d) / 10 =? v) || negb (u64 (v * 10 + d) mod 10 =? d)
  = negb (v * 10 + d <? 2 ^ 64).
Proof.
  intros Hv Hd. unfold u64.
  destruct (Z.ltb_spec (v * 10 + d) (2 ^ 64)) as [Hlt | Hge]; cbn.
  - rewrite Z.mod_small by lia.
    replace ((v * 10 + d) / 10) with v by (apply Z.div_unique with d; lia).
    replace ((v * 10 + d) mod 10) with d by (apply Z.mod_unique with v; lia).
    by rewrite !Z.eqb_refl.
  - pose proof (Z.mod_pos_bound (v * 10 + d) (2 ^ 64) ltac:(lia)) as Hm.
    pose proof (Z.div_mod ((v * 10 + d) mod 2 ^ 64) 10 ltac:(lia)) as Hdm.
    destruct (Z.eqb_spec ((v * 10 + d) mod 2 ^ 64 / 10) v) as [Hq | Hq]; [| done].
    destruct (Z.eqb_spec (((v * 10 + d) mod 2 ^ 64) mod 10) d) as [Hr | Hr]; [| done].
    exfalso. rewrite Hq, Hr in Hdm. lia.
Qed.

Lemma base_loop_overflow s rest v i :
  Forall decimal_digit s -> 0 <= v < 2 ^ 64 ->
  2 ^ 64 <= accumulate 10 s v ->
  base_loop 10 true (s ++ rest) v i = None.
Proof.
  intros Hs. revert v i. induction Hs as [| c s Hc _ IH]; intros v i Hv Hover.
  - cbn in Hover. lia.
  - cbn [app base_loop]. destruct (decimal_digit_base c Hc) as [-> Hd].
    rewrite overflow_test_exact by done.
    destruct (Z.ltb_spec (v * 10 + digit_value c) (2 ^ 64)) as [Hlt | Hge]; [| done].
    cbn [negb]. apply IH.
    + unfold u64. rewrite Z.mod_small; lia.
    + unfold u64. rewrite Z.mod_small by lia. cbn in Hover.
      by replace (v * 10 + digit_value c) with (10 * v + digit_value c) by lia.
Qed.

Lemma base_loop_exact s rest v i :
  Forall decimal_digit s -> 0 <= v ->
  accumulate 10 s v < 2 ^ 64 ->
  is_base_digit rest.[0] 10 = None ->
  base_loop 10 true (s ++ rest) v i = Some (accumulate 10 s v, (i + length s)%nat).
Proof.
  intros Hs. revert v i. induction Hs as [| c s Hc Hs IH]; intros v i Hv Hfit Hrest.
  - cbn [app length]. rewrite Nat.add_0_r. destruct rest as [| c rest]; [done |].
    rewrite peek_0 in Hrest. cbn. by rewrite Hrest.
  - cbn [app base_loop]. destruct (decimal_digit_base c Hc) as [-> Hd].
    cbn in Hfit.
    pose proof (accumulate_ge s (10 * v + digit_value c) Hs ltac:(lia)) as Hge.
    unfold accumulate in Hge.
    rewrite overflow_test_exact by lia.
    replace (v * 10 + digit_value c <? 2 ^ 64) with true
      by (symmetry; apply Z.ltb_lt; lia).
    cbn [negb]. unfold u64. rewrite Z.mod_small by lia.
    replace (v * 10 + digit_value c) with (10 * v + digit_value c) by lia.
    rewrite IH by (done || lia). cbn. do 2 f_equal. lia.
Qed.

(** The engine in base 10 with a value requested, on a run that does not
    fit 64 bits. *)
Lemma parse_literal__base_overflow src ptr s rest :
  Forall decimal_digit s -> 2 ^ 64 <= run_value 10 s ->
  text_at src ptr = s ++ rest ->
  parse_literal__base src ptr 10 false true
  = Some (0%nat, 0, [Warning ptr overflow_message]).
Proof.
  intros Hs Hover Htext. unfold parse_literal__base. rewrite Htext. cbv zeta.
  cbn [andb]. destruct s as [| c s]; [by vm_compute in Hover |].
  cbn [app]. rewrite peek_0.
  destruct (decimal_digit_base c (Forall_inv Hs)) as [-> _].
  change (drop 0 (c :: s ++ rest)) with ((c :: s) ++ rest).
  by rewrite base_loop_overflow.
Qed.

(** The engine in base 10 on a run that fits: the value is the exact one. *)
Lemma parse_literal__base_fits src ptr s rest :
  Forall decimal_digit s -> s <> [] -> run_value 10 s < 2 ^ 64 ->
  is_base_digit rest.[0] 10 = None ->
  text_at src ptr = s ++ rest ->
  exists w,
    parse_literal__base src ptr 10 false true
    = Some (length s, run_value 10 s, w)
    /\ ~ emits_overflow w.
Proof.
  intros Hs Hne Hfit Hrest Htext. unfold parse_literal__base. rewrite Htext.
  cbv zeta. cbn [andb]. destruct s as [| c s]; [done |].
  cbn [app]. rewrite peek_0.
  destruct (decimal_digit_base c (Forall_inv Hs)) as [-> _].
  change (drop 0 (c :: s ++ rest)) with ((c :: s) ++ rest).
  rewrite base_loop_exact by done. cbn [andb negb].
  destruct (negb (sparse_sequential _ _ _));
    eexists; (split; [reflexivity | no_such_warning]).
Qed.

(** ** Hollerith copying and padding *)

Lemma insert_at_end (done free : list ascii) c f :
  <[length done := c]> (done ++ f :: free) = (done ++ [c]) ++ free.
Proof.
  replace (length done) with (length done + 0)%nat at 1 by lia.
  rewrite insert_app_r. cbn. by rewrite <- app_assoc.
Qed.

(** Copying stops at the line end that follows [content]; [done] is the
    part of the buffer already written. *)
Lemma hollerith_copy_content p n content tail i done free :
  Forall (fun c => is_line_end c = false) content ->
  is_line_end tail.[0] = true ->
  (length done + length content < n)%nat ->
  (length content <= length free)%nat ->
  exists i',
    hollerith_copy p n (content ++ tail) i (length done) (done ++ free)
    = (i', (length done + length content)%nat,
       done ++ content ++ drop (length content) free)
    /\ (i <= i')%nat.
Proof.
  intros Hc Htail. revert i done free.
  induction Hc as [| c content Hnl _ IH]; intros i done free Hn Hfree.
  - exists i. split; [| lia]. cbn [app length drop] in *.
    rewrite Nat.add_0_r in *.
    destruct tail as [| t tail]; cbn [hollerith_copy].
    + replace (n <=? length done)%nat with false
        by (symmetry; apply Nat.leb_gt; lia). done.
    + rewrite peek_0 in Htail. rewrite Htail.
      by destruct (n <=? length done)%nat.
  - cbn [app length] in *. cbn [hollerith_copy].
    replace (n <=? length done)%nat with false
      by (symmetry; apply Nat.leb_gt; lia).
    rewrite Hnl. destruct free as [| f free]; [cbn in Hfree; lia |].
    rewrite insert_at_end.
    replace (S (length done)) with (length (done ++ [c]))
      by (rewrite length_app; cbn; lia).
    destruct (IH (if Ascii.eqb p.[i] c then S i else i) (done ++ [c]) free)
      as (i' & -> & Hi).
    { rewrite length_app. cbn. lia. }
    { cbn in Hfree. lia. }
    exists i'. split.
    + rewrite length_app, <- app_assoc. cbn. do 2 f_equal. lia.
    + destruct (Ascii.eqb p.[i] c); lia.
Qed.

Lemma hollerith_pad_fill (done free : list ascii) k :
  k = length free ->
  hollerith_pad k (length done) (done ++ free)
  = done ++ replicate k " "%char.
Proof.
  intros ->. revert done. induction free as [| f free IH]; intros done; cbn.
  - done.
  - rewrite insert_at_end.
    replace (S (length done)) with (length (done ++ [" "%char]))
      by (rewrite length_app; cbn; lia).
    rewrite IH. by rewrite <- app_assoc.
Qed.

(** ** Properties of the specification *)

(** C7.  Hollerith truncation: when the count prefix is recognized, [H]
    follows, the parent text is available and the buffer is allocated,
    and the parent text reaches a line terminator or the end of the
    buffer after fewer characters ([content]) than the count asks for,
    [parse_hollerith] succeeds and the buffer it returns holds [content]
    followed by spaces up to the declared count.  On [5Hab] at the end of
    the line this is the 5-byte buffer [ab] and three spaces. *)
Theorem hollerith_truncated_is_padded alloc_fails src ptr i n w pptr
    content tail string :
  parse_unsigned src ptr = Some (i, n, w) -> i <> 0%nat ->
  toupper (text_at src ptr).[i] = "H"%char ->
  sparse_parent_pointer src (ptr + i) = Some pptr ->
  alloc_fails (Z.to_nat n) = false ->
  drop 1 pptr = content ++ tail ->
  Forall (fun c => is_line_end c = false) content ->
  is_line_end tail.[0] = true ->
  (length content < Z.to_nat n)%nat ->
  exists len,
    parse_hollerith alloc_fails src ptr string
    = Some (len,
            string_buf (content ++ replicate (Z.to_nat n - length content) " "%char),
            w)
    /\ (2 <= len)%nat
    /\ length (content ++ replicate (Z.to_nat n - length content) " "%char)
       = Z.to_nat n.
Proof.
  intros Hcount Hi HH Hparent Halloc Hptext Hcontent Htail Hshort.
  unfold parse_hollerith. rewrite Hcount. cbn [bind]. cbv zeta.
  replace (i =? 0)%nat with false by (symmetry; by apply Nat.eqb_neq).
  rewrite HH, Hparent. cbn [Ascii.eqb Bool.eqb andb negb].
  unfold string_create. rewrite Halloc, Hptext. cbn [string_empty string_base].
  destruct (hollerith_copy_content (text_at src ptr) (Z.to_nat n) content tail
              (i + 1) [] (replicate (Z.to_nat n) NUL) Hcontent Htail)
    as (i' & Hcopy & Hi').
  { cbn. lia. }
  { rewrite length_replicate. lia. }
  cbn [app length] in Hcopy. rewrite Hcopy. cbn [Nat.add].
  rewrite drop_replicate.
  rewrite hollerith_pad_fill by (by rewrite length_replicate).
  exists i'. cbn. rewrite app_nil_r. split; [done |]. split; [lia |].
  rewrite length_app, length_replicate. lia.
Qed.

(** The input [5Hab] of the claim, at the end of the buffer. *)
Lemma hollerith_truncated_5Hab :
  exists len,
    parse_hollerith never_fails (plain_source (chars "5Hab")) 0 STRING_EMPTY
    = Some (len, string_buf (chars "ab   "), [])
    /\ (2 <= len)%nat
    /\ length (chars "ab   ") = 5%nat.
Proof.
  apply (hollerith_truncated_is_padded never_fails (plain_source (chars "5Hab"))
           0 1 5 [] (chars "Hab") (chars "ab") [] STRING_EMPTY);
    try reflexivity.
  - discriminate.
  - repeat constructor.
  - cbn. lia.
Defined.

Lemma decimal_digit_isdigit c :
  decimal_digit c -> isdigit c = true /\ is_sign c = false.
Proof.
  unfold decimal_digit. cbn. intros H.
  repeat (apply elem_of_cons in H as [-> | H]; [by vm_compute |]).
  by apply elem_of_nil in H.
Qed.

Lemma skip_digits_run s rest i :
  Forall decimal_digit s -> isdigit rest.[0] = false ->
  skip_digits (s ++ rest) i = (i + length s)%nat.
Proof.
  intros Hs Hrest. revert i. induction Hs as [| c s Hc _ IH]; intros i.
  - cbn [app length]. rewrite Nat.add_0_r. destruct rest as [| c rest]; [done |].
    rewrite peek_0 in Hrest. cbn. by rewrite Hrest.
  - cbn [app skip_digits length]. destruct (decimal_digit_isdigit c Hc) as [-> _].
    rewrite IH. lia.
Qed.

Lemma exponent_letter_facts e :
  e ∈ chars "EeDd" ->
  Ascii.eqb e "." = false
  /\ Ascii.eqb (toupper e) "E" || Ascii.eqb (toupper e) "D" = true
  /\ isdigit e = false
  /\ Ascii.eqb e "_" = false.
Proof.
  cbn. intros H.
  repeat (apply elem_of_cons in H as [-> | H]; [by vm_compute |]).
  by apply elem_of_nil in H.
Qed.

(** C1.  What the code does where the claim asks for the exponent to be
    consumed: after a run of digits, an exponent letter is never taken,
    whatever follows it.  The test that should look at the character
    after the optional sign looks at the exponent letter itself, so that
    the marker is always rolled back: the match is the digit run and the
    kind stays 0. *)
Theorem number_exponent_never_consumed src ptr literal ds e rest :
  Forall decimal_digit ds -> ds <> [] -> e ∈ chars "EeDd" ->
  text_at src ptr = ds ++ e :: rest ->
  exists w,
    parse_literal__number src ptr literal
    = Some (length ds,
            set_number (str_ref ptr (length ds))
              (set_kind 0 (set_type PARSE_LITERAL_NUMBER literal)), w)
    /\ str_ref_text src (str_ref ptr (length ds)) = ds.
Proof.
  intros Hds Hne He Htext.
  destruct (exponent_letter_facts e He) as (Hdot & Hexp & Hdig & Hund).
  assert ((ds ++ e :: rest).[length ds] = e) as Hpeek.
  { replace (length ds) with (length ds + 0)%nat by lia.
    by rewrite peek_app_r. }
  unfold parse_literal__number. rewrite Htext. cbv zeta.
  destruct ds as [| c ds]; [done |].
  destruct (decimal_digit_isdigit c (Forall_inv Hds)) as [Hc Hsign].
  cbn [app] in *. rewrite peek_0, Hsign, peek_0, Hc.
  change (drop 0 (c :: ds ++ e :: rest)) with ((c :: ds) ++ e :: rest).
  rewrite skip_digits_run by (done || by rewrite peek_0).
  cbn [Nat.add]. change (c :: ds ++ e :: rest) with ((c :: ds) ++ e :: rest) in *.
  rewrite Hpeek, Hdot. cbv beta iota zeta.
  rewrite !Hpeek, Hexp, Hdig. cbn [negb andb orb]. cbv beta iota zeta.
  rewrite Hpeek, Hund.
  unfold number_finish, str_ref_text. cbn [sr_size sr_base].
  rewrite Htext, take_app_length.
  destruct (negb (sparse_sequential _ _ _)); eexists; split; reflexivity || done.
Qed.

(** The input [1E5]: one character is consumed, the slice is [1]. *)
Lemma number_1E5 :
  exists w,
    parse_literal__number (plain_source (chars "1E5")) 0 blank_literal
    = Some (1%nat,
            set_number (str_ref 0 1)
              (set_kind 0 (set_type PARSE_LITERAL_NUMBER blank_literal)), w)
    /\ str_ref_text (plain_source (chars "1E5")) (str_ref 0 1) = chars "1".
Proof.
  apply (number_exponent_never_consumed (plain_source (chars "1E5")) 0
           blank_literal (chars "1") "E"%char (chars "5")).
  - repeat constructor.
  - discriminate.
  - cbn. apply elem_of_cons. by left.
  - reflexivity.
Defined.

Lemma exponent_letter_not_digit c :
  Ascii.eqb (toupper c) "E" || Ascii.eqb (toupper c) "D" = true ->
  isdigit c = false.
Proof.
  destruct c as [[] [] [] [] [] [] [] []]; vm_compute; intros H;
    reflexivity || discriminate H.
Qed.

Lemma parse_unsigned_no_ambiguity src ptr res w :
  parse_unsigned src ptr = Some (res, w) -> ~ emits_ambiguity w.
Proof.
  unfold parse_unsigned, parse_literal__base. cbv zeta. cbn [andb negb].
  destruct (is_base_digit _ 10);
    [| intros [= _ <-]; no_such_warning].
  destruct (base_loop _ _ _ _ _) as [[v i] |];
    [| intros [= _ <-]; no_such_warning].
  destruct (negb (sparse_sequential _ _ _)); cbn [bind ret sparse_warning app];
    destruct (i =? 0)%nat; try destruct (negb _);
    intros [= _ <-]; no_such_warning.
Qed.

Lemma number_finish_no_ambiguity src ptr literal i k res w :
  number_finish src ptr literal i k false = Some (res, w) ->
  ~ emits_ambiguity w.
Proof.
  unfold number_finish.
  destruct (negb (sparse_sequential _ _ _)); intros [= _ <-]; no_such_warning.
Qed.

(** C2.  What the code does where the claim asks for the ambiguity
    warning.  On [1.0D0_4] the match ends before the [D] (see C1), so
    that neither the implicit kind 8 nor the suffix [_4] is read: three
    characters are consumed, the stored kind is 0 and no diagnostic is
    emitted.  And on no input at all is the ambiguity warning emitted:
    the exponent kind is never set. *)
Theorem number_kind_ambiguity_never_reported :
  (parse_literal__number (plain_source (chars "1.0D0_4")) 0 blank_literal
   = Some (3%nat,
           set_number (str_ref 0 3)
             (set_kind 0 (set_type PARSE_LITERAL_NUMBER blank_literal)), [])
   /\ str_ref_text (plain_source (chars "1.0D0_4")) (str_ref 0 3) = chars "1.0")
  /\ (forall src ptr literal res w,
        parse_literal__number src ptr literal = Some (res, w) ->
        ~ emits_ambiguity w).
Proof.
  split; [split; reflexivity |].
  intros src ptr literal res w. unfold parse_literal__number. cbv zeta.
  destruct (Ascii.eqb _ "."); cbv beta iota zeta.
  all: match goal with
       | |- context [if ?e then (if negb (isdigit ?c) then _ else _) else _] =>
           destruct e eqn:He;
           [rewrite (exponent_letter_not_digit c He) |]
       end; cbn [negb]; cbv beta iota zeta.
  all: match goal with |- context [if ?b then ret _ else _] => destruct b end;
       [intros [= _ <-]; no_such_warning |].
  all: match goal with |- context [if ?b then bind _ _ else _] => destruct b end;
       [| apply number_finish_no_ambiguity].
  all: intros Hrun;
       apply bind_Some in Hrun as ([len k] & w1 & w2 & Hu & Hrun & ->);
       apply parse_unsigned_no_ambiguity in Hu;
       cbn [Z.ltb Z.compare andb] in Hrun;
       destruct (len =? 0)%nat;
       [injection Hrun as _ <- | apply number_finish_no_ambiguity in Hrun];
       intros [pos [Hin | Hin]%elem_of_app];
       [apply Hu; by exists pos | by apply elem_of_nil in Hin
       |apply Hu; by exists pos | apply Hrun; by exists pos].
Qed.

(** The diagnostics of [1.0D0_4] hold no ambiguity warning. *)
Lemma number_kind_ambiguity_on_1_0D0_4 :
  parse_literal__number (plain_source (chars "1.0D0_4")) 0 blank_literal
  = Some (3%nat,
          set_number (str_ref 0 3)
            (set_kind 0 (set_type PARSE_LITERAL_NUMBER blank_literal)), [])
  /\ ~ emits_ambiguity [].
Proof.
  split; [reflexivity |].
  apply (proj2 number_kind_ambiguity_never_reported
           (plain_source (chars "1.0D0_4")) 0%nat blank_literal
           (3%nat,
            set_number (str_ref 0 3)
              (set_kind 0 (set_type PARSE_LITERAL_NUMBER blank_literal))) []).
  reflexivity.
Defined.

(** C3, as the code has it.  For every radix in {2, 8, 16} and every
    non-empty run [s] of digits of that radix, the recognizer applied to
    the prefix letter, a quote, [s] and the same quote succeeds, consumes
    [length s + 3] characters and tags the result with the radix; the
    slice it stores starts at the opening quote and has [length s + 2]
    characters: it is the digit text between its two quotes, only the
    prefix letter is left out. *)
Theorem radix_literal_slice r src ptr letter q s rest literal :
  letter ∈ radix_letters r -> is_quote q -> s <> [] ->
  Forall (fun c => c ∈ radix_digits r) s ->
  text_at src ptr = letter :: q :: s ++ q :: rest ->
  exists l,
    recognize_radix r src ptr literal = Some ((length s + 3)%nat, l, [])
    /\ lit_type l = radix_type r
    /\ lit_number l = str_ref (ptr + 1) (length s + 2)
    /\ str_ref_text src (lit_number l) = q :: s ++ [q].
Proof.
  intros Hl Hq Hne Hs Htext.
  rewrite (recognize_radix_quoted r src ptr letter q s rest literal) by done.
  eexists. split; [reflexivity |]. split; [done |]. split; [done |].
  cbn [set_type set_number lit_number]. unfold str_ref_text. cbn [sr_size sr_base].
  rewrite text_at_plus, Htext. cbn [drop].
  change (q :: s ++ q :: rest) with ((q :: s) ++ [q] ++ rest).
  rewrite app_assoc. apply take_app_length'. cbn [app length].
  rewrite length_app. cbn. lia.
Qed.

Lemma radix_literal_slice_B0101 :
  exists l,
    parse_literal__binary (plain_source (chars "B'0101'")) 0 blank_literal
    = Some (7%nat, l, [])
    /\ lit_type l = PARSE_LITERAL_BINARY
    /\ lit_number l = str_ref 1 6
    /\ str_ref_text (plain_source (chars "B'0101'")) (lit_number l)
       = chars "'0101'".
Proof.
  apply (radix_literal_slice Binary (plain_source (chars "B'0101'")) 0
           "B"%char "'"%char (chars "0101") [] blank_literal).
  - cbn. apply elem_of_cons. by left.
  - by left.
  - discriminate.
  - cbn. repeat constructor.
  - reflexivity.
Defined.

(** C3 as stated fails on [B'0101']: no result of the binary recognizer
    has the bare digit text [0101] as its slice. *)
Lemma radix_slice_is_not_the_bare_digits :
  ~ (exists l w,
       parse_literal__binary (plain_source (chars "B'0101'")) 0 blank_literal
       = Some (7%nat, l, w)
       /\ str_ref_text (plain_source (chars "B'0101'")) (lit_number l)
          = chars "0101").
Proof.
  intros (l & w & Hrun & Hslice). vm_compute in Hrun.
  injection Hrun as <- <-. vm_compute in Hslice. discriminate Hslice.
Qed.




(** C6.  A base-10 digit run whose value exceeds 2^64 - 1 is rejected by
    the accumulation of the engine, whatever follows the run: the
    overflow warning is emitted and 0 is returned, by the engine and by
    [parse_unsigned]; no value is stored. *)
Theorem decimal_overflow_is_rejected src ptr s rest :
  Forall decimal_digit s -> 2 ^ 64 - 1 < run_value 10 s ->
  text_at src ptr = s ++ rest ->
  parse_literal__base src ptr 10 false true
  = Some (0%nat, 0, [Warning ptr overflow_message])
  /\ parse_unsigned src ptr
     = Some (0%nat, 0, [Warning ptr overflow_message]).
Proof.
  intros Hs Hover Htext.
  assert (parse_literal__base src ptr 10 false true
          = Some (0%nat, 0, [Warning ptr overflow_message])) as Hbase
    by (apply (parse_literal__base_overflow src ptr s rest); [done | lia | done]).
  split; [done |]. unfold parse_unsigned. by rewrite Hbase.
Qed.

Lemma decimal_overflow_2_pow_64 :
  parse_literal__base (plain_source (chars "18446744073709551616")) 0 10 false true
  = Some (0%nat, 0, [Warning 0%nat overflow_message])
  /\ parse_unsigned (plain_source (chars "18446744073709551616")) 0
     = Some (0%nat, 0, [Warning 0%nat overflow_message]).
Proof.
  apply (decimal_overflow_is_rejected
           (plain_source (chars "18446744073709551616")) 0
           (chars "18446744073709551616") []).
  - apply Forall_forall. intros c Hc. unfold decimal_digit.
    cbn in Hc |- *. repeat (apply elem_of_cons in Hc as [-> | Hc];
      [repeat (first [by apply list_elem_of_here | apply list_elem_of_further]) |]).
    by apply elem_of_nil in Hc.
  - by vm_compute.
  - reflexivity.
Defined.

(** ** Character literals *)

Lemma character_skip_ge quote rest is_escaped i :
  (i <= character_skip quote rest is_escaped i)%nat.
Proof.
  revert is_escaped i. induction rest as [| c rest IH]; intros is_escaped i; cbn.
  - lia.
  - destruct (negb (Ascii.eqb c NUL) && _); [| lia].
    etrans; [| apply IH]. lia.
Qed.

Lemma character_decode_defined src ptr chars0 is_escaped str_pos base :
  exists base' w,
    character_decode src ptr chars0 is_escaped str_pos base = Some (base', w).
Proof.
  revert is_escaped str_pos base.
  induction chars0 as [| c chars0 IH]; intros is_escaped str_pos base; cbn.
  - by eexists _, _.
  - destruct is_escaped.
    + assert (exists c' w, character_escape src ptr c = Some (c', w)) as (c' & w & ->).
      { unfold character_escape.
        repeat (match goal with |- context [if ?b then _ else _] => destruct b end;
                [by eexists _, _ |]).
        by eexists _, _. }
      cbn [bind]. destruct (IH false (S str_pos) (<[str_pos := c']> base))
        as (b' & w' & ->). by eexists _, _.
    + destruct (Ascii.eqb c BACKSLASH); apply IH.
Qed.

(** C10.  Whenever [parse_character] succeeds, the length it returns is
    at least 3: the scan of the condensed text for the closing quote
    starts two characters past the opening quote.  In particular no
    input, and so no empty literal, is recognized with length 2. *)
Theorem parse_character_length_at_least_3 alloc_fails src ptr string len s w :
  parse_character alloc_fails src ptr string = Some (len, s, w) ->
  (len <> 0%nat -> (3 <= len)%nat) /\ len <> 2%nat.
Proof.
  unfold parse_character. cbv zeta. intros Hrun.
  destruct (negb _ && negb _); [injection Hrun as <- _ _; lia |].
  destruct (sparse_parent_pointer src _) as [pptr |];
    [| injection Hrun as <- _ _; lia].
  destruct (negb _); [injection Hrun as <- _ _; lia |].
  destruct (character_measure _ _ _ _ _) as [[| j str_len] |];
    [injection Hrun as <- _ _; lia | | discriminate Hrun].
  destruct (string_create alloc_fails str_len) as [| base];
    cbn [string_empty string_base] in Hrun; [injection Hrun as <- _ _; lia |].
  match type of Hrun with context [character_decode ?a ?b ?c ?d ?e ?f] =>
    destruct (character_decode_defined a b c d e f) as (b' & w' & Hdec) end.
  rewrite Hdec in Hrun. cbn in Hrun. injection Hrun as <- _ _.
  match goal with |- context [character_skip ?q ?r ?e ?i] =>
    pose proof (character_skip_ge q r e i) end.
  lia.
Qed.

Lemma parse_character_length_ab :
  parse_character never_fails (plain_source (chars "'ab'")) 0 STRING_EMPTY
  = Some (4%nat, string_buf (chars "ab"), [])
  /\ (4%nat <> 0%nat -> (3 <= 4)%nat) /\ 4%nat <> 2%nat.
Proof.
  split; [reflexivity |].
  apply (parse_character_length_at_least_3 never_fails
           (plain_source (chars "'ab'")) 0 STRING_EMPTY 4
           (string_buf (chars "ab")) []).
  reflexivity.
Defined.

(** C4, as the code has it.  The character literal whose text is a
    quote, [a], a backslash, [n], [b] and the closing quote is decoded
    into the 3 bytes [a], 0x0A, [b]: the escape pair gives one newline.
    The length consumed is that of the source text, 6. *)
Theorem character_escape_newline alloc_fails src ptr q rest prest string :
  is_quote q ->
  text_at src ptr
  = q :: "a"%char :: BACKSLASH :: "n"%char :: "b"%char :: q :: rest ->
  sparse_parent_pointer src ptr
  = Some (q :: "a"%char :: BACKSLASH :: "n"%char :: "b"%char :: q :: prest) ->
  alloc_fails 3%nat = false ->
  parse_character alloc_fails src ptr string
  = Some (6%nat, string_buf ["a"%char; LF; "b"%char], []).
Proof.
  intros Hq Htext Hparent Halloc. unfold parse_character, string_create.
  rewrite Htext, Nat.add_0_r, Hparent.
  by destruct Hq as [-> | ->]; vm_compute; rewrite Halloc.
Qed.

Lemma character_escape_newline_double_quoted :
  parse_character never_fails
    (plain_source (DQUOTE :: chars "a\nb" ++ [DQUOTE])) 0 STRING_EMPTY
  = Some (6%nat, string_buf ["a"%char; LF; "b"%char], []).
Proof.
  apply (character_escape_newline never_fails
           (plain_source (DQUOTE :: chars "a\nb" ++ [DQUOTE])) 0 DQUOTE [] []
           STRING_EMPTY).
  - by right.
  - reflexivity.
  - reflexivity.
  - reflexivity.
Defined.

(** C4 as stated fails: on that text no result has consumed length 8. *)
Lemma character_escape_newline_length_is_not_8 :
  ~ (exists s w,
       parse_character never_fails
         (plain_source (DQUOTE :: chars "a\nb" ++ [DQUOTE])) 0 STRING_EMPTY
       = Some (8%nat, s, w)).
Proof. intros (s & w & Hrun). vm_compute in Hrun. discriminate Hrun. Qed.

(** ** Numeric and complex literals *)

Lemma parse_literal__base_defined src ptr base quoted value :
  exists res w, parse_literal__base src ptr base quoted value = Some (res, w).
Proof.
  unfold parse_literal__base. cbv zeta.
  destruct (quoted && _ && _); [by eexists _, _ |].
  destruct (is_base_digit _ base); [| destruct quoted; by eexists _, _].
  destruct (base_loop _ _ _ _ _) as [[v i] |]; [| by eexists _, _].
  destruct (quoted && _); [by eexists _, _ |].
  destruct (negb quoted && _); by eexists _, _.
Qed.

Lemma parse_unsigned_defined src ptr :
  exists res w, parse_unsigned src ptr = Some (res, w).
Proof.
  unfold parse_unsigned.
  destruct (parse_literal__base_defined src ptr 10 false true)
    as ([len u] & w & ->). cbn [bind].
  destruct (len =? 0)%nat; [by eexists _, _ |].
  destruct (negb _); by eexists _, _.
Qed.

Lemma number_finish_defined src ptr literal i k kind_ambiguous :
  exists l w, number_finish src ptr literal i k kind_ambiguous = Some (i, l, w).
Proof.
  unfold number_finish.
  destruct (negb (sparse_sequential src ptr i)), kind_ambiguous; by eexists _, _.
Qed.

Lemma parse_literal__number_defined src ptr literal :
  exists len l w, parse_literal__number src ptr literal = Some (len, l, w).
Proof.
  unfold parse_literal__number. cbv zeta.
  repeat match goal with
         | |- context [let '(_, _) := ?x in _] => destruct x
         end.
  destruct (negb _ && negb _); [by eexists _, _, _ |].
  destruct (Ascii.eqb _ "_").
  - match goal with |- context [parse_unsigned ?s ?p] =>
      destruct (parse_unsigned_defined s p) as ([len k] & w & ->) end.
    cbn [bind]. destruct (len =? 0)%nat; [by eexists _, _, _ |].
    match goal with |- context [number_finish ?a ?b ?c ?d ?e ?f] =>
      destruct (number_finish_defined a b c d e f) as (l & w' & ->) end.
    by eexists _, _, _.
  - match goal with |- context [number_finish ?a ?b ?c ?d ?e ?f] =>
      destruct (number_finish_defined a b c d e f) as (l & w' & ->) end.
    by eexists _, _, _.
Qed.

(** The length [parse_literal__number] returns does not depend on the
    literal it is given to fill. *)
Lemma parse_literal__number_length src ptr l1 l2 len1 len2 r1 r2 w1 w2 :
  parse_literal__number src ptr l1 = Some (len1, r1, w1) ->
  parse_literal__number src ptr l2 = Some (len2, r2, w2) ->
  len1 = len2.
Proof.
  unfold parse_literal__number. cbv zeta.
  repeat match goal with
         | |- context [let '(_, _) := ?x in _] => destruct x
         end.
  destruct (negb _ && negb _); [intros [= <- _ _] [= <- _ _]; done |].
  destruct (Ascii.eqb _ "_").
  - match goal with |- context [parse_unsigned ?s ?p] =>
      destruct (parse_unsigned_defined s p) as ([len k] & w & ->) end.
    cbn [bind]. destruct (len =? 0)%nat; [intros [= <- _ _] [= <- _ _]; done |].
    unfold number_finish.
    destruct (negb (sparse_sequential _ _ _)), (_ && _);
      intros [= <- _ _] [= <- _ _]; done.
  - unfold number_finish.
    destruct (negb (sparse_sequential _ _ _));
      intros [= <- _ _] [= <- _ _]; done.
Qed.

Lemma parse_literal__complex_mismatch indeterminate src ptr literal :
  ~ (exists len1 len2, complex_shape src ptr len1 len2) ->
  exists w,
    parse_literal__complex indeterminate src ptr literal
    = Some (0%nat, literal, w).
Proof.
  intros Hno. unfold parse_literal__complex. cbv zeta.
  destruct (Ascii.eqb_spec (text_at src ptr).[0] "(") as [H0 | H0];
    cbn [negb]; [| by eexists].
  destruct (parse_literal__number_defined src (ptr + 1) indeterminate)
    as (len1 & l1 & w1 & Hn1).
  rewrite Hn1. cbn [bind].
  destruct (Nat.eqb_spec len1 0) as [Hz1 | Hz1]; [by eexists |].
  destruct (Ascii.eqb_spec (text_at src ptr).[1 + len1] ",") as [H1 | H1];
    cbn [negb]; [| by eexists].
  destruct (parse_literal__number_defined src (ptr + S (1 + len1)) indeterminate)
    as (len2 & l2 & w2 & Hn2).
  rewrite Hn2. cbn [bind].
  destruct (Nat.eqb_spec len2 0) as [Hz2 | Hz2]; [by eexists |].
  destruct (Ascii.eqb_spec (text_at src ptr).[S (1 + len1) + len2] ")")
    as [H2 | H2]; cbn [negb]; [| by eexists].
  exfalso. apply Hno. exists len1, len2. unfold complex_shape, matches_number.
  split; [done |]. split; [split; [done | by eexists _, _, _] |].
  split; [done |]. split; [split; [done | by eexists _, _, _] |]. done.
Qed.

(** C8.  On [(1.0,2.0)] the complex recognizer returns 9 and a Complex
    result whose real-part slice is [1.0] and whose imaginary-part slice
    is [2.0].  On every input that has not the shape [(] number [,]
    number [)] it returns 0 and the literal it was given is returned as
    it was. *)
Theorem complex_literal indeterminate :
  (forall literal,
     let src := plain_source (chars "(1.0,2.0)") in
     exists l,
       parse_literal__complex indeterminate src 0 literal = Some (9%nat, l, [])
       /\ lit_type l = PARSE_LITERAL_COMPLEX
       /\ str_ref_text src (lit_complex_left_number l) = chars "1.0"
       /\ str_ref_text src (lit_complex_right_number l) = chars "2.0")
  /\ (forall src ptr literal,
        ~ (exists len1 len2, complex_shape src ptr len1 len2) ->
        exists w,
          parse_literal__complex indeterminate src ptr literal
          = Some (0%nat, literal, w)).
Proof.
  split.
  - intros literal src. eexists. split; [reflexivity |]. by repeat split.
  - intros. by apply parse_literal__complex_mismatch.
Qed.

(** A missing comma: [(1.0;2.0)]. *)
Lemma complex_literal_missing_comma :
  exists w,
    parse_literal__complex blank_literal (plain_source (chars "(1.0;2.0)")) 0
      blank_literal
    = Some (0%nat, blank_literal, w).
Proof.
  apply (proj2 (complex_literal blank_literal)
           (plain_source (chars "(1.0;2.0)")) 0%nat blank_literal).
  intros (len1 & len2 & _ & [_ (l0 & l & w & Hn1)] & Hcomma & _).
  destruct (parse_literal__number_defined
              (plain_source (chars "(1.0;2.0)")) 1 blank_literal)
    as (len & l' & w' & Hn).
  pose proof (parse_literal__number_length _ _ _ _ _ _ _ _ _ _ Hn1 Hn) as ->.
  vm_compute in Hn. injection Hn as <- _ _. vm_compute in Hcomma.
  discriminate Hcomma.
Defined.

(** ** The dispatcher *)

(** C9.  When [parse_literal] returns 0 the literal of the caller is
    returned as it was: the recognizers fill a local literal, which is
    copied out on success only.  And it returns 0 whenever each of the
    eight recognizers does. *)
Theorem parse_literal_failure_leaves_literal alloc_fails parse_keyword
    indeterminate src ptr literal :
  (forall l w,
     parse_literal alloc_fails parse_keyword indeterminate src ptr literal
     = Some (0%nat, l, w) ->
     l = literal)
  /\ (Forall (fun f => returns_0 f src ptr)
        (sub_recognizers alloc_fails parse_keyword indeterminate) ->
      exists w,
        parse_literal alloc_fails parse_keyword indeterminate src ptr literal
        = Some (0%nat, literal, w)).
Proof.
  split.
  - intros l w. unfold parse_literal. cbv zeta. intros Hrun.
    do 7 (apply bind_Some in Hrun as (? & ? & ? & _ & Hrun & _)).
    apply bind_Some in Hrun as ([len l'] & ? & ? & _ & Hrun & _).
    destruct (Nat.eqb_spec len 0) as [-> | Hne]; cbn in Hrun.
    + by injection Hrun as <- _.
    + injection Hrun as -> _ _. done.
  - unfold sub_recognizers. intros Hall.
    repeat match type of Hall with
           | Forall _ (_ :: _) =>
               let H := fresh "Hf" in
               apply Forall_cons_1 in Hall as [H Hall]
           end.
    unfold parse_literal, try_next. cbv zeta. cbn [Nat.eqb].
    repeat match goal with
           | Hf : returns_0 ?f src ptr |- context [?f src ptr ?l] =>
               let l' := fresh "l" in
               let w' := fresh "w" in
               destruct (Hf l) as (l' & w' & ->); clear Hf;
               cbn [bind Nat.eqb]
           end.
    by eexists.
Qed.

(** The text [x] holds no literal. *)
Lemma parse_literal_failure_on_x :
  exists w,
    parse_literal never_fails no_keyword blank_literal
      (plain_source (chars "x")) 0 blank_literal
    = Some (0%nat, blank_literal, w).
Proof.
  apply (proj2 (parse_literal_failure_leaves_literal never_fails no_keyword
                  blank_literal (plain_source (chars "x")) 0%nat blank_literal)).
  unfold sub_recognizers.
  repeat (apply Forall_cons; split; [intros l; by eexists _, _ |]).
  apply Forall_nil_2.
Defined.

(** ** Further evaluations *)

(** [5Hab] followed by a line feed and more text: the same buffer. *)
Example hollerith_5Hab_before_line_feed :
  parse_hollerith never_fails
    (plain_source (chars "5Hab" ++ LF :: chars "xyz")) 0 STRING_EMPTY
  = Some (4%nat, string_buf (chars "ab   "), []).
Proof. reflexivity. Qed.

(** A complete Hollerith literal is copied without padding. *)
Example hollerith_2Hab :
  parse_hollerith never_fails (plain_source (chars "2Hab")) 0 STRING_EMPTY
  = Some (4%nat, string_buf (chars "ab"), []).
Proof. reflexivity. Qed.

(** The largest 64-bit value is accumulated exactly by the engine;
    [parse_unsigned] refuses it because it does not fit [unsigned]. *)
Example decimal_largest_u64 :
  parse_literal__base (plain_source (chars "18446744073709551615")) 0 10 false true
  = Some (20%nat, 2 ^ 64 - 1, [])
  /\ parse_unsigned (plain_source (chars "18446744073709551615")) 0
     = Some (0%nat, 0, [])
  /\ parse_unsigned (plain_source (chars "4294967295")) 0
     = Some (10%nat, 2 ^ 32 - 1, []).
Proof. by vm_compute. Qed.

(** A kind suffix directly after the digits is read. *)
Example number_with_kind_suffix :
  parse_literal__number (plain_source (chars "1.0_4")) 0 blank_literal
  = Some (5%nat,
          set_number (str_ref 0 5)
            (set_kind 4 (set_type PARSE_LITERAL_NUMBER blank_literal)), []).
Proof. reflexivity. Qed.

(** Two quotes followed by more text: the scan skips the second quote
    and stops at the third. *)
Example character_two_quotes_then_text :
  parse_character never_fails (plain_source (chars "''x'")) 0 STRING_EMPTY
  = Some (4%nat, string_buf [], [])
  /\ parse_character never_fails (plain_source (chars "''")) 0 STRING_EMPTY
     = Some (0%nat, STRING_EMPTY, [Error 0%nat "Unterminated string"]).
Proof. split; reflexivity. Qed.

(** The accumulation multiplies by 10 whatever the base: with a value
    requested in base 2 the run [11] is refused.  No recognizer of this
    file asks for a value in a base other than 10. *)
Example engine_base_2_with_value :
  parse_literal__base (plain_source (chars "11")) 0 2 false true
  = Some (0%nat, 0, [Warning 0%nat overflow_message]).
Proof. reflexivity. Qed.

(** With a doubled backslash the text has 7 characters and decodes to
    the 4 bytes [a], backslash, [n], [b]. *)
Example character_escaped_backslash :
  parse_character never_fails
    (plain_source (DQUOTE :: chars "a\\nb" ++ [DQUOTE])) 0 STRING_EMPTY
  = Some (7%nat, string_buf (chars "a\nb"), []).
Proof. reflexivity. Qed.

(** ** Digits *)

Lemma every_ascii (P : ascii -> bool) :
  forallb P (map ascii_of_nat (seq 0 256)) = true -> forall c, P c = true.
Proof.
  intros H c. rewrite forallb_forall in H. apply H.
  apply in_map_iff. exists (nat_of_ascii c).
  split; [apply ascii_nat_embedding |].
  apply in_seq. pose proof (nat_ascii_bounded c). lia.
Qed.

(** On alphanumeric characters the digit value is at most 35 and does
    not depend on the case. *)
Lemma alnum_digit_value c :
  isalnum c = true ->
  0 <= digit_value c <= 35
  /\ isalnum (toupper c) = true
  /\ digit_value (toupper c) = digit_value c.
Proof.
  intros Hc.
  assert (negb (isalnum c)
          || (0 <=? digit_value c) && (digit_value c <=? 35)
             && isalnum (toupper c)
             && (digit_value (toupper c) =? digit_value c) = true) as H
    by (clear Hc; revert c; apply every_ascii; by vm_compute).
  rewrite Hc in H. cbn [negb orb] in H.
  apply andb_true_iff in H as [[[H1 H2]%andb_true_iff H3]%andb_true_iff H4].
  apply Z.eqb_eq in H4. repeat split; try done; lia.
Qed.

(** The digit test of the engine in terms of the digit value. *)
Lemma is_base_digit_spec c base :
  is_base_digit c base
  = if isalnum c && (digit_value c <? base) then Some (digit_value c) else None.
Proof.
  unfold is_base_digit. destruct (isalnum c) eqn:Hc; cbn [negb andb]; [| done].
  match goal with |- context [if base <=? ?r then _ else _] =>
    assert (r = digit_value c) as ->
  end.
  { assert (negb (isalnum c)
            || ((if (code "0" <=? code c) && (code c <=? code "9")
                 then u32 (code c - code "0")
                 else u32 (10 + (code (toupper c) - code "A")))
                =? digit_value c) = true) as H
      by (clear Hc; revert c; apply every_ascii; by vm_compute).
    rewrite Hc in H. by apply Z.eqb_eq in H. }
  destruct (Z.leb_spec base (digit_value c)), (Z.ltb_spec (digit_value c) base);
    done || lia.
Qed.

(** A digit the engine accepts is below the base and at most 35, and
    letters count the same in both cases. *)
Theorem is_base_digit_range c base v :
  is_base_digit c base = Some v ->
  0 <= v < base /\ v <= 35
  /\ is_base_digit (toupper c) base = Some v
  /\ isalnum c = true.
Proof.
  rewrite !is_base_digit_spec.
  destruct (isalnum c) eqn:Hc; cbn [andb]; [| done].
  destruct (alnum_digit_value c Hc) as (Hv & -> & ->). cbn [andb].
  destruct (Z.ltb_spec (digit_value c) base); [| done].
  intros [= <-]. repeat split; lia.
Qed.

Lemma is_base_digit_range_f :
  is_base_digit "f" 16 = Some 15
  /\ 0 <= 15 < 16 /\ 15 <= 35
  /\ is_base_digit (toupper "f") 16 = Some 15
  /\ isalnum "f" = true.
Proof.
  split; [reflexivity |].
  apply (is_base_digit_range "f"%char 16 15). reflexivity.
Defined.

(** ** Consumed lengths stay within the text *)

Lemma peek_lt (p : list ascii) i : p.[i] <> NUL -> (i < length p)%nat.
Proof.
  unfold peek. destruct (p !! i) as [c |] eqn:Hl.
  - intros _. by eapply lookup_lt_Some.
  - done.
Qed.

Lemma peek_eq_lt (p : list ascii) i c : p.[i] = c -> c <> NUL -> (i < length p)%nat.
Proof. intros <-. apply peek_lt. Qed.

Lemma base_loop_bound base value rest v i v' i' :
  base_loop base value rest v i = Some (v', i') ->
  (i <= i' <= i + length rest)%nat
  /\ (is_Some (is_base_digit rest.[0] base) -> (i < i')%nat).
Proof.
  revert v i. induction rest as [| c rest IH]; intros v i; cbn [base_loop length].
  - intros [= <- <-]. split; [lia |]. by intros [d Hd].
  - rewrite peek_0. destruct (is_base_digit c base) as [d |].
    + destruct value.
      * destruct (negb _ || negb _); [done |].
        intros [Hb _]%IH. split; [lia |]. intros _. lia.
      * intros [Hb _]%IH. split; [lia |]. intros _. lia.
    + intros [= <- <-]. split; [lia |]. by intros [d Hd].
Qed.

Lemma parse_literal__base_bound src ptr base quoted value len v w :
  parse_literal__base src ptr base quoted value = Some (len, v, w) ->
  (len <= length (text_at src ptr))%nat
  /\ (len <> 0%nat -> ((if quoted then 3 else 1) <= len)%nat).
Proof.
  unfold parse_literal__base. cbv zeta.
  set (p := text_at src ptr).
  destruct quoted; cbn [andb negb].
  - destruct (negb (Ascii.eqb p.[0] DQUOTE) && negb (Ascii.eqb p.[0] SQUOTE))
      eqn:Hq; [intros [= <- _ _]; split; [lia | done] |].
    assert (p.[0] <> NUL) as Hq0.
    { intros Heq. rewrite Heq in Hq. discriminate Hq. }
    apply peek_lt in Hq0.
    destruct (is_base_digit p.[1] base) as [d |] eqn:Hd;
      [| intros [= <- _ _]; split; [lia | done]].
    destruct (base_loop base value (drop 1 p) 0 1) as [[v' i'] |] eqn:Hloop;
      [| intros [= <- _ _]; split; [lia | done]].
    apply base_loop_bound in Hloop as [Hb Hadv].
    rewrite peek_drop, length_drop in *. cbn [Nat.add] in Hadv.
    rewrite Hd in Hadv. specialize (Hadv ltac:(by eexists)).
    destruct (Ascii.eqb_spec p.[i'] p.[0]) as [Hclose | Hclose]; cbn [negb];
      [| intros [= <- _ _]; split; [lia | done]].
    assert (p.[i'] <> NUL) as Hi'.
    { rewrite Hclose. intros Heq. rewrite Heq in Hq. discriminate Hq. }
    apply peek_lt in Hi'. intros [= <- _ _]. split; lia.
  - destruct (is_base_digit p.[0] base) as [d |] eqn:Hd;
      [| intros [= <- _ _]; split; [lia | done]].
    destruct (base_loop base value (drop 0 p) 0 0) as [[v' i'] |] eqn:Hloop;
      [| intros [= <- _ _]; split; [lia | done]].
    apply base_loop_bound in Hloop as [Hb Hadv].
    rewrite peek_drop, length_drop in *. cbn [Nat.add] in Hadv.
    rewrite Hd in Hadv. specialize (Hadv ltac:(by eexists)).
    destruct (negb (sparse_sequential _ _ _)); intros [= <- _ _]; split; lia.
Qed.



(** ** Unsigned integers *)

Lemma decimal_digits_of_string s :
  forallb (fun c => existsb (Ascii.eqb c) (chars "0123456789")) s = true ->
  Forall decimal_digit s.
Proof.
  intros H. apply Forall_forall. intros c Hc%list_elem_of_In.
  rewrite forallb_forall in H. specialize (H c Hc).
  apply existsb_exists in H as (d & Hd%list_elem_of_In & ->%Ascii.eqb_eq).
  exact Hd.
Qed.

Lemma parse_unsigned_run src ptr s rest :
  Forall decimal_digit s -> s <> [] ->
  is_base_digit rest.[0] 10 = None ->
  run_value 10 s < 2 ^ 32 ->
  text_at src ptr = s ++ rest ->
  exists w,
    parse_unsigned src ptr = Some (length s, run_value 10 s, w)
    /\ ~ emits_overflow w.
Proof.
  intros Hs Hne Hrest Hfit Htext.
  destruct (parse_literal__base_fits src ptr s rest Hs Hne ltac:(lia) Hrest Htext)
    as (w & Hbase & Hw).
  pose proof (accumulate_ge s 0 Hs ltac:(lia)) as Hpos.
  fold (run_value 10 s) in Hpos.
  unfold parse_unsigned. rewrite Hbase. cbn [bind].
  replace (length s =? 0)%nat with false
    by (symmetry; apply Nat.eqb_neq; by destruct s).
  unfold u32. rewrite Z.mod_small by lia. rewrite Z.eqb_refl. cbn.
  rewrite app_nil_r. by exists w.
Qed.

(** [parse_unsigned] on a run of decimal digits whose value fits 32
    bits: the whole run is consumed and the value stored is the number
    the run denotes. *)
Theorem parse_unsigned_value src ptr s rest :
  Forall decimal_digit s -> s <> [] ->
  is_base_digit rest.[0] 10 = None ->
  run_value 10 s < 2 ^ 32 ->
  text_at src ptr = s ++ rest ->
  exists w,
    parse_unsigned src ptr = Some (length s, run_value 10 s, w)
    /\ ~ emits_overflow w.
Proof.
  intros Hs Hne Hrest Hfit Htext.
  destruct (parse_literal__base_fits src ptr s rest Hs Hne ltac:(lia) Hrest Htext)
    as (w & Hbase & Hw).
  pose proof (accumulate_ge s 0 Hs ltac:(lia)) as Hpos.
  fold (run_value 10 s) in Hpos.
  unfold parse_unsigned. rewrite Hbase. cbn [bind].
  replace (length s =? 0)%nat with false
    by (symmetry; apply Nat.eqb_neq; by destruct s).
  unfold u32. rewrite Z.mod_small by lia. rewrite Z.eqb_refl. cbn.
  rewrite app_nil_r. by exists w.
Qed.

Lemma parse_unsigned_value_4294967295 :
  exists w,
    parse_unsigned (plain_source (chars "4294967295,")) 0
    = Some (10%nat, 4294967295, w)
    /\ ~ emits_overflow w.
Proof.
  apply (parse_unsigned_value (plain_source (chars "4294967295,")) 0
           (chars "4294967295") (chars ",")).
  - by apply decimal_digits_of_string.
  - discriminate.
  - reflexivity.
  - by vm_compute.
  - reflexivity.
Defined.

(** A run that fits 64 bits and not 32 is refused by [parse_unsigned]
    with length 0, and without the overflow warning. *)
Theorem parse_unsigned_refuses_wide_values src ptr s rest :
  Forall decimal_digit s -> s <> [] ->
  is_base_digit rest.[0] 10 = None ->
  2 ^ 32 <= run_value 10 s < 2 ^ 64 ->
  text_at src ptr = s ++ rest ->
  exists w,
    parse_unsigned src ptr = Some (0%nat, 0, w)
    /\ ~ emits_overflow w.
Proof.
  intros Hs Hne Hrest Hfit Htext.
  destruct (parse_literal__base_fits src ptr s rest Hs Hne ltac:(lia) Hrest Htext)
    as (w & Hbase & Hw).
  unfold parse_unsigned. rewrite Hbase. cbn [bind].
  replace (length s =? 0)%nat with false
    by (symmetry; apply Nat.eqb_neq; by destruct s).
  unfold u32.
  replace (run_value 10 s mod 2 ^ 32 =? run_value 10 s) with false.
  - cbn. rewrite app_nil_r. by exists w.
  - symmetry. apply Z.eqb_neq.
    pose proof (Z.mod_pos_bound (run_value 10 s) (2 ^ 32) ltac:(lia)). lia.
Qed.

Lemma parse_unsigned_refuses_4294967296 :
  exists w,
    parse_unsigned (plain_source (chars "4294967296")) 0 = Some (0%nat, 0, w)
    /\ ~ emits_overflow w.
Proof.
  apply (parse_unsigned_refuses_wide_values (plain_source (chars "4294967296")) 0
           (chars "4294967296") []).
  - by apply decimal_digits_of_string.
  - discriminate.
  - reflexivity.
  - by vm_compute.
  - reflexivity.
Defined.

(** ** Radix literals that are not closed *)

Lemma parse_literal__base_unclosed src ptr base value q s rest :
  is_quote q -> s <> [] ->
  Forall (fun c => is_Some (is_base_digit c base)) s ->
  is_base_digit rest.[0] base = None -> rest.[0] <> q ->
  text_at src ptr = q :: s ++ rest ->
  value = false ->
  parse_literal__base src ptr base true value
  = Some (0%nat, 0,
          [Error (ptr + (length s + 2)) "Invalid character in BOZ literal"]).
Proof.
  intros Hq Hne Hs Hrest Hclose Htext ->. unfold parse_literal__base.
  rewrite Htext. cbv zeta. cbn [andb]. rewrite peek_0, (quote_cases q Hq).
  destruct s as [| c s]; [done |].
  rewrite peek_S. cbn [app]. rewrite peek_0.
  destruct (Forall_cons_1 _ _ _ Hs) as [[d Hd] _]. rewrite Hd.
  change (drop 1 (q :: c :: s ++ rest)) with ((c :: s) ++ rest).
  rewrite (base_loop_run base (c :: s) rest 0 1 Hs Hrest).
  change (q :: c :: s ++ rest) with ((q :: c :: s) ++ rest).
  replace (1 + length (c :: s))%nat with (length (q :: c :: s) + 0)%nat
    by (cbn; lia).
  rewrite peek_app_r.
  destruct (Ascii.eqb_spec rest.[0] q) as [Heq | _]; [done |].
  cbn. do 4 f_equal. lia.
Qed.

(** A radix literal whose digit run is followed by anything but the
    opening quote (a digit of a higher radix, the other quote, the end
    of the text) is refused: 0 is returned, the literal is left as it
    was, and the error is reported one character past the offending
    one. *)
Theorem radix_literal_unclosed r src ptr letter q s rest literal :
  letter ∈ radix_letters r -> is_quote q -> s <> [] ->
  Forall (fun c => c ∈ radix_digits r) s ->
  is_base_digit rest.[0] (radix_base r) = None -> rest.[0] <> q ->
  text_at src ptr = letter :: q :: s ++ rest ->
  recognize_radix r src ptr literal
  = Some (0%nat, literal,
          [Error (ptr + (length s + 3)) "Invalid character in BOZ literal"]).
Proof.
  intros Hl Hq Hne Hs Hrest Hclose Htext.
  assert (text_at src (ptr + 1) = q :: s ++ rest) as Htext1
    by (by rewrite text_at_plus, Htext).
  pose proof (parse_literal__base_unclosed src (ptr + 1) (radix_base r) false
                q s rest Hq Hne (radix_run_valid r s Hs) Hrest Hclose Htext1
                eq_refl) as Hbase.
  replace (ptr + 1 + (length s + 2))%nat with (ptr + (length s + 3))%nat
    in Hbase by lia.
  apply radix_letter_upper in Hl.
  destruct r; cbn [recognize_radix radix_base] in *.
  - unfold parse_literal__binary. by rewrite Htext, peek_0, Hl, Hbase.
  - unfold parse_literal__octal. by rewrite Htext, peek_0, Hl, Hbase.
  - unfold parse_literal__hex. rewrite Htext, peek_0, Hbase.
    by destruct Hl as [-> | ->].
Qed.

(** [B'012']: 2 is no binary digit. *)
Lemma radix_literal_unclosed_B012 :
  parse_literal__binary (plain_source (chars "B'012'")) 0 blank_literal
  = Some (0%nat, blank_literal,
          [Error 5%nat "Invalid character in BOZ literal"]).
Proof.
  apply (radix_literal_unclosed Binary (plain_source (chars "B'012'")) 0
           "B"%char "'"%char (chars "01") (chars "2'") blank_literal).
  - cbn. apply elem_of_cons. by left.
  - by left.
  - discriminate.
  - cbn. repeat constructor.
  - reflexivity.
  - discriminate.
  - reflexivity.
Defined.

(** ** The two passes of the character literal *)

Lemma character_escape_value src ptr c :
  exists w, character_escape src ptr c = Some (escape_value c, w).
Proof.
  unfold character_escape, escape_value.
  repeat (match goal with |- context [if Ascii.eqb c ?d then ret _ else _] =>
            destruct (Ascii.eqb_spec c d) as [-> |] end; [by eexists |]).
  by eexists.
Qed.

Lemma character_measure_content q content tail e j n :
  literal_content q e content ->
  character_measure q (content ++ q :: tail) e j n
  = Some (Measured (j + length content) (n + length (unescape e content))).
Proof.
  revert e j n. induction content as [| c content IH]; intros e j n; cbn.
  - intros ->. rewrite Ascii.eqb_refl. cbn. do 2 f_equal; lia.
  - intros (Hcr & Hlf & Hq & Hrest).
    replace (negb (Ascii.eqb c q) || e) with true.
    2: { destruct e; [by rewrite orb_true_r |].
         specialize (Hq eq_refl). apply Ascii.eqb_neq in Hq. by rewrite Hq. }
    apply Ascii.eqb_neq in Hcr, Hlf. rewrite Hcr, Hlf. cbn [orb].
    destruct e; cbn [negb andb] in *.
    + rewrite andb_false_r. rewrite IH by done. cbn. do 2 f_equal; lia.
    + rewrite andb_true_r. destruct (Ascii.eqb c BACKSLASH).
      * rewrite IH by done. do 2 f_equal; lia.
      * rewrite IH by done. cbn. do 2 f_equal; lia.
Qed.

Lemma character_measure_inv q prest e j n j' n' :
  character_measure q prest e j n = Some (Measured j' n') ->
  exists content tail,
    prest = content ++ q :: tail
    /\ literal_content q e content
    /\ j' = (j + length content)%nat
    /\ n' = (n + length (unescape e content))%nat.
Proof.
  revert e j n. induction prest as [| c prest IH]; intros e j n; cbn; [done |].
  destruct (negb (Ascii.eqb c q) || e) eqn:Hgo.
  - destruct (Ascii.eqb_spec c CR) as [| Hcr]; [done |].
    destruct (Ascii.eqb_spec c LF) as [| Hlf]; [done |]. cbn [orb].
    assert (e = false -> c <> q) as Hq.
    { intros -> ->. by rewrite Ascii.eqb_refl in Hgo. }
    destruct (Ascii.eqb c BACKSLASH && negb e) eqn:Hesc.
    + apply andb_true_iff in Hesc as [Hc He]. apply negb_true_iff in He as ->.
      intros (content & tail & -> & Hlit & -> & ->)%IH.
      exists (c :: content), tail. cbn. rewrite Hc. cbn.
      split; [done |]. split; [done |]. split; lia.
    + intros (content & tail & -> & Hlit & -> & ->)%IH.
      exists (c :: content), tail. cbn.
      replace (negb e && Ascii.eqb c BACKSLASH) with false
        by (by rewrite andb_comm).
      split; [done |]. split; [done |]. split; [lia |].
      destruct e; cbn; [lia |].
      rewrite andb_true_r in Hesc. rewrite Hesc. cbn. lia.
  - apply orb_false_iff in Hgo as [Hc ->]. apply negb_false_iff in Hc.
    apply Ascii.eqb_eq in Hc as ->. intros [= <- <-].
    exists [], prest. cbn. repeat split; try done; lia.
Qed.

Lemma character_decode_content src ptr content e (done free : list ascii) :
  length free = length (unescape e content) ->
  exists w,
    character_decode src ptr content e (length done) (done ++ free)
    = Some (done ++ unescape e content, w).
Proof.
  revert e done free.
  induction content as [| c content IH]; intros e done free Hlen; cbn in *.
  - destruct free; [| done]. by eexists.
  - destruct e.
    + destruct free as [| f free]; [done |]. cbn in Hlen.
      destruct (character_escape_value src ptr c) as (w1 & ->). cbn [bind].
      rewrite insert_at_end.
      replace (S (length done)) with (length (done ++ [escape_value c]))
        by (rewrite length_app; cbn; lia).
      destruct (IH false (done ++ [escape_value c]) free ltac:(lia)) as (w2 & ->).
      rewrite <- app_assoc. by eexists.
    + destruct (Ascii.eqb c BACKSLASH); [by apply IH |].
      destruct free as [| f free]; [done |]. cbn in Hlen.
      rewrite insert_at_end.
      replace (S (length done)) with (length (done ++ [c]))
        by (rewrite length_app; cbn; lia).
      destruct (IH false (done ++ [c]) free ltac:(lia)) as (w2 & ->).
      rewrite <- app_assoc. by eexists.
Qed.

Lemma parse_character_buffer alloc_fails src ptr string len s w :
  parse_character alloc_fails src ptr string = Some (len, s, w) ->
  len <> 0%nat ->
  exists pptr content tail,
    sparse_parent_pointer src ptr = Some pptr
    /\ drop 1 pptr = content ++ (text_at src ptr).[0] :: tail
    /\ literal_content (text_at src ptr).[0] false content
    /\ s = string_buf (unescape false content).
Proof.
  unfold parse_character. cbv zeta. rewrite Nat.add_0_r. intros Hrun Hlen.
  destruct (negb _ && negb _); [by injection Hrun as <- _ _ |].
  destruct (sparse_parent_pointer src ptr) as [pptr |];
    [| by injection Hrun as <- _ _].
  destruct (negb _); [by injection Hrun as <- _ _ |].
  destruct (character_measure _ _ _ _ _) as [[| j str_len] |] eqn:Hm;
    [by injection Hrun as <- _ _ | | discriminate Hrun].
  apply character_measure_inv in Hm as (content & tail & Hp & Hlit & -> & ->).
  unfold string_create in Hrun. destruct (alloc_fails _);
    cbn [string_empty string_base] in Hrun; [by injection Hrun as <- _ _ |].
  rewrite Hp in Hrun.
  replace (1 + length content - 1)%nat with (length content) in Hrun by lia.
  rewrite take_app_length in Hrun. cbn [Nat.add] in Hrun.
  destruct (character_decode_content src ptr content false []
              (replicate (length (unescape false content)) NUL)
              ltac:(by rewrite length_replicate)) as (w' & Hdec).
  cbn [app length] in Hdec. rewrite Hdec in Hrun. cbn in Hrun.
  injection Hrun as _ <- _. by exists pptr, content, tail.
Qed.

(** Whenever [parse_character] succeeds, the parent text holds, after
    its first character, a literal content closed by the quote of the
    condensed text, and the buffer returned holds exactly the bytes
    that content denotes: the length counted by the first pass is the
    number of bytes the second pass writes. *)
Theorem parse_character_decodes alloc_fails src ptr string len s w :
  parse_character alloc_fails src ptr string = Some (len, s, w) ->
  len <> 0%nat ->
  exists pptr content tail,
    sparse_parent_pointer src ptr = Some pptr
    /\ drop 1 pptr = content ++ (text_at src ptr).[0] :: tail
    /\ literal_content (text_at src ptr).[0] false content
    /\ s = string_buf (unescape false content).
Proof.
  unfold parse_character. cbv zeta. rewrite Nat.add_0_r. intros Hrun Hlen.
  destruct (negb _ && negb _); [by injection Hrun as <- _ _ |].
  destruct (sparse_parent_pointer src ptr) as [pptr |];
    [| by injection Hrun as <- _ _].
  destruct (negb _); [by injection Hrun as <- _ _ |].
  destruct (character_measure _ _ _ _ _) as [[| j str_len] |] eqn:Hm;
    [by injection Hrun as <- _ _ | | discriminate Hrun].
  apply character_measure_inv in Hm as (content & tail & Hp & Hlit & -> & ->).
  unfold string_create in Hrun. destruct (alloc_fails _);
    cbn [string_empty string_base] in Hrun; [by injection Hrun as <- _ _ |].
  rewrite Hp in Hrun.
  replace (1 + length content - 1)%nat with (length content) in Hrun by lia.
  rewrite take_app_length in Hrun. cbn [Nat.add] in Hrun.
  destruct (character_decode_content src ptr content false []
              (replicate (length (unescape false content)) NUL)
              ltac:(by rewrite length_replicate)) as (w' & Hdec).
  cbn [app length] in Hdec. rewrite Hdec in Hrun. cbn in Hrun.
  injection Hrun as _ <- _. by exists pptr, content, tail.
Qed.

Lemma parse_character_decodes_tab :
  exists pptr content tail,
    sparse_parent_pointer (plain_source (chars "'a\tb'")) 0 = Some pptr
    /\ drop 1 pptr
       = content ++ (text_at (plain_source (chars "'a\tb'")) 0).[0] :: tail
    /\ literal_content (text_at (plain_source (chars "'a\tb'")) 0).[0] false content
    /\ string_buf ["a"%char; HT; "b"%char] = string_buf (unescape false content).
Proof.
  apply (parse_character_decodes never_fails (plain_source (chars "'a\tb'")) 0
           STRING_EMPTY 6 (string_buf ["a"%char; HT; "b"%char]) []).
  - reflexivity.
  - discriminate.
Defined.

(** ** The scan of the condensed text *)

Lemma character_skip_content q content rest e i :
  literal_content q e content -> NUL ∉ content -> q <> NUL ->
  character_skip q (content ++ q :: rest) e i = (i + length content)%nat.
Proof.
  revert e i. induction content as [| c content IH]; intros e i; cbn.
  - intros -> _ Hq. rewrite Ascii.eqb_refl. cbn. rewrite andb_false_r. lia.
  - intros (_ & _ & Hcq & Hrest) Hnul Hq.
    apply not_elem_of_cons in Hnul as [Hc Hnul].
    replace (negb (Ascii.eqb c NUL)) with true
      by (symmetry; apply negb_true_iff, Ascii.eqb_neq; congruence).
    replace (negb (Ascii.eqb c q) || e) with true.
    2: { destruct e; [by rewrite orb_true_r |].
         specialize (Hcq eq_refl). apply Ascii.eqb_neq in Hcq. by rewrite Hcq. }
    cbn [andb]. rewrite IH by done. lia.
Qed.


(** A character literal whose parent text is the condensed text, whose
    content is not empty, holds no NUL and does not start with a
    backslash: the whole literal is consumed and the buffer holds the
    bytes the content denotes. *)
Theorem parse_character_round_trip alloc_fails src ptr q c content rest prest
    string :
  is_quote q ->
  literal_content q false (c :: content) -> NUL ∉ content -> c <> BACKSLASH ->
  text_at src ptr = q :: c :: content ++ q :: rest ->
  sparse_parent_pointer src ptr = Some (q :: c :: content ++ q :: prest) ->
  alloc_fails (length (unescape false (c :: content))) = false ->
  exists w,
    parse_character alloc_fails src ptr string
    = Some ((length (c :: content) + 2)%nat,
            string_buf (unescape false (c :: content)), w).
Proof.
  intros Hq Hlit Hnul Hc Htext Hparent Halloc.
  assert (q <> NUL) as Hq0 by (by destruct Hq as [-> | ->]).
  unfold parse_character. cbv zeta. rewrite Nat.add_0_r, Htext, Hparent.
  rewrite peek_0, (quote_cases q Hq).
  change (drop (S (0 + 1)) (q :: c :: content ++ q :: rest))
    with (content ++ q :: rest).
  assert (literal_content q false content) as Hlit'.
  { cbn in Hlit. destruct Hlit as (_ & _ & _ & Hlit).
    apply Ascii.eqb_neq in Hc. by rewrite Hc in Hlit. }
  rewrite (character_skip_content q content rest false) by done.
  change (q :: c :: content ++ q :: rest) with ([q; c] ++ content ++ q :: rest).
  rewrite app_assoc.
  replace (S (0 + 1) + length content)%nat
    with (length ([q; c] ++ content) + 0)%nat
    by (rewrite length_app; cbn; lia).
  rewrite peek_app_r, peek_0, Ascii.eqb_refl. cbn [negb].
  change (drop 1 (q :: c :: content ++ q :: prest))
    with ((c :: content) ++ q :: prest).
  rewrite (character_measure_content q (c :: content) prest false 1 0) by done.
  unfold string_create. cbn [Nat.add]. rewrite Halloc.
  cbn [string_empty string_base].
  replace (S (length (c :: content)) - 1)%nat with (length (c :: content))
    by lia.
  rewrite take_app_length.
  destruct (character_decode_content src ptr (c :: content) false []
              (replicate (length (unescape false (c :: content))) NUL)
              ltac:(by rewrite length_replicate)) as (w & Hdec).
  cbn [app length] in Hdec. cbn [length]. rewrite Hdec. cbn [bind ret].
  rewrite length_app. cbn [length]. eexists. do 3 f_equal. lia.
Qed.

Lemma parse_character_round_trip_it_s :
  exists w,
    parse_character never_fails (plain_source (chars "'it\'s' // x")) 0
      STRING_EMPTY
    = Some (7%nat, string_buf (chars "it's"), w).
Proof.
  apply (parse_character_round_trip never_fails
           (plain_source (chars "'it\'s' // x")) 0 "'"%char "i"%char
           (chars "t\'s") (chars " // x") (chars " // x") STRING_EMPTY).
  - by left.
  - cbn. repeat split; first [discriminate | reflexivity | intros ?; discriminate].
  - cbn. intros H. repeat (apply elem_of_cons in H as [H | H]; [discriminate H |]).
    by apply elem_of_nil in H.
  - discriminate.
  - reflexivity.
  - reflexivity.
  - reflexivity.
Defined.

Lemma peek_drop_cons (p : list ascii) k c :
  p.[k] = c -> c <> NUL -> drop k p = c :: drop (S k) p.
Proof.
  unfold peek. destruct (p !! k) as [d |] eqn:Hl; cbn.
  - intros -> _. by apply drop_S.
  - congruence.
Qed.

(** The scan of the condensed text never looks at the character after
    the opening quote.  When the character two places after the opening
    quote is that quote again, a match has length 3, whatever stands
    between them (a backslash that escapes the quote as well) and
    whatever the parent text says. *)
Theorem parse_character_second_character_unseen alloc_fails src ptr string
    len s w :
  (text_at src ptr).[2] = (text_at src ptr).[0] ->
  parse_character alloc_fails src ptr string = Some (len, s, w) ->
  len = 0%nat \/ len = 3%nat.
Proof.
  unfold parse_character. cbv zeta. set (p := text_at src ptr). intros Hp2 Hrun.
  destruct (negb (Ascii.eqb p.[0] DQUOTE) && negb (Ascii.eqb p.[0] SQUOTE))
    eqn:Hq; [injection Hrun as <- _ _; by left |].
  assert (p.[0] <> NUL) as Hq0.
  { intros Heq. rewrite Heq in Hq. discriminate Hq. }
  destruct (sparse_parent_pointer src _) as [pptr |];
    [| injection Hrun as <- _ _; by left].
  cbn [Nat.add] in Hrun.
  rewrite (peek_drop_cons p 2 p.[0] Hp2 Hq0) in Hrun. cbn [character_skip] in Hrun.
  rewrite Ascii.eqb_refl in Hrun. cbn [negb orb] in Hrun.
  rewrite andb_false_r in Hrun. rewrite Hp2, Ascii.eqb_refl in Hrun.
  cbn [negb] in Hrun.
  destruct (character_measure _ _ _ _ _) as [[| j str_len] |];
    [injection Hrun as <- _ _; by left | | discriminate Hrun].
  destruct (string_create alloc_fails str_len) as [| base];
    cbn [string_empty string_base] in Hrun; [injection Hrun as <- _ _; by left |].
  match type of Hrun with context [character_decode ?a ?b ?c ?d ?e ?f] =>
    destruct (character_decode_defined a b c d e f) as (b' & w' & Hdec) end.
  rewrite Hdec in Hrun. cbn in Hrun. injection Hrun as <- _ _. by right.
Qed.

(** The text is a quote, a backslash, the quote, [x] and the quote:
    the parent text gives the two bytes [x] after the escaped quote, the
    length consumed is 3. *)
Lemma parse_character_escaped_quote_first :
  parse_character never_fails (plain_source (chars "'\'x'")) 0 STRING_EMPTY
  = Some (3%nat, string_buf (chars "'x"), [])
  /\ (3%nat = 0%nat \/ 3%nat = 3%nat).
Proof.
  split; [reflexivity |].
  apply (parse_character_second_character_unseen never_fails
           (plain_source (chars "'\'x'")) 0 STRING_EMPTY 3
           (string_buf (chars "'x")) []); reflexivity.
Defined.



(** ** Complete Hollerith literals *)

Lemma hollerith_copy_full p n content tail ctail i (done free : list ascii) :
  Forall (fun c => is_line_end c = false) content ->
  (length done + length content = n)%nat ->
  (length content <= length free)%nat ->
  drop i p = content ++ ctail ->
  hollerith_copy p n (content ++ tail) i (length done) (done ++ free)
  = ((i + length content)%nat, n,
     done ++ content ++ drop (length content) free).
Proof.
  intros Hc. revert i done free.
  induction Hc as [| c content Hnl _ IH]; intros i done free Hn Hfree Hcur.
  - cbn [app length drop] in *. rewrite Nat.add_0_r in *. subst n.
    destruct tail; cbn [hollerith_copy]; by rewrite Nat.leb_refl.
  - cbn [app length] in *. cbn [hollerith_copy].
    replace (n <=? length done)%nat with false
      by (symmetry; apply Nat.leb_gt; lia).
    rewrite Hnl. destruct free as [| f free]; [cbn in Hfree; lia |].
    rewrite insert_at_end.
    assert (p.[i] = c) as Hpi.
    { replace i with (i + 0)%nat by lia. by rewrite <- peek_drop, Hcur. }
    rewrite Hpi, Ascii.eqb_refl.
    replace (S (length done)) with (length (done ++ [c]))
      by (rewrite length_app; cbn; lia).
    rewrite IH.
    + rewrite <- app_assoc. cbn. do 2 f_equal. lia.
    + rewrite length_app. cbn. lia.
    + cbn in Hfree. lia.
    + replace (S i) with (i + 1)%nat by lia.
      rewrite <- drop_drop, Hcur. done.
Qed.

(** A Hollerith literal whose count of characters is there, in the
    parent text before any line end and in the condensed text alike: the
    count, the [H] and the characters are consumed, and the buffer holds
    the characters, without padding. *)
Theorem hollerith_complete alloc_fails src ptr i n w pptr content tail ctail
    string :
  parse_unsigned src ptr = Some (i, n, w) -> i <> 0%nat ->
  toupper (text_at src ptr).[i] = "H"%char ->
  sparse_parent_pointer src (ptr + i) = Some pptr ->
  alloc_fails (Z.to_nat n) = false ->
  drop 1 pptr = content ++ tail ->
  drop (i + 1) (text_at src ptr) = content ++ ctail ->
  Forall (fun c => is_line_end c = false) content ->
  length content = Z.to_nat n ->
  parse_hollerith alloc_fails src ptr string
  = Some ((i + 1 + length content)%nat, string_buf content, w).
Proof.
  intros Hcount Hi HH Hparent Halloc Hptext Hctext Hcontent Hlen.
  unfold parse_hollerith. rewrite Hcount. cbn [bind]. cbv zeta.
  replace (i =? 0)%nat with false by (symmetry; by apply Nat.eqb_neq).
  rewrite HH, Hparent. cbn [Ascii.eqb Bool.eqb andb negb].
  unfold string_create. rewrite Halloc, Hptext. cbn [string_empty string_base].
  pose proof (hollerith_copy_full (text_at src ptr) (Z.to_nat n) content tail
                ctail (i + 1) [] (replicate (Z.to_nat n) NUL) Hcontent) as Hcopy.
  cbn [app length Nat.add] in Hcopy. rewrite Hcopy; try done.
  - rewrite Nat.sub_diag. cbn [hollerith_pad].
    rewrite drop_replicate, <- Hlen, Nat.sub_diag. cbn [replicate].
    cbn. by rewrite !app_nil_r.
  - rewrite length_replicate. lia.
Qed.

Lemma hollerith_complete_3Habc :
  parse_hollerith never_fails (plain_source (chars "3Habc+1")) 0 STRING_EMPTY
  = Some (5%nat, string_buf (chars "abc"), []).
Proof.
  apply (hollerith_complete never_fails (plain_source (chars "3Habc+1")) 0 1 3
           [] (chars "Habc+1") (chars "abc") (chars "+1") (chars "+1")
           STRING_EMPTY); try reflexivity.
  - discriminate.
  - repeat constructor.
Defined.

(** ** Numeric literals *)

Lemma exponent_block (c : ascii) (x : bool * Z * nat) (i : nat) :
  (if Ascii.eqb (toupper c) "E" || Ascii.eqb (toupper c) "D"
   then if negb (isdigit c) then (false, 0, i) else x
   else (Ascii.eqb (toupper c) "E" || Ascii.eqb (toupper c) "D", 0, i))
  = (false, 0, i).
Proof.
  destruct (Ascii.eqb (toupper c) "E" || Ascii.eqb (toupper c) "D") eqn:He;
    [| done].
  by rewrite (exponent_letter_not_digit c He).
Qed.

(** [parse_literal__number] without its exponent block, which always
    rolls back (see C1): sign, digits, fraction, kind suffix. *)
Lemma parse_literal__number_eq src ptr literal :
  parse_literal__number src ptr literal
  = let p := text_at src ptr in
    let i0 := if is_sign p.[0] then 1%nat else 0%nat in
    let had_int := isdigit p.[i0] in
    let i1 := skip_digits (drop i0 p) i0 in
    let dot := Ascii.eqb p.[i1] "." in
    let i := if dot then skip_digits (drop (i1 + 1) p) (i1 + 1) else i1 in
    let had_fract := if dot then had_int || isdigit p.[(i1 + 1)%nat] else false in
    if negb had_fract && negb had_int then ret (0%nat, literal)
    else if Ascii.eqb p.[i] "_"
    then
      do '(len, k) <- parse_unsigned src (ptr + (i + 1)) ;
      if (len =? 0)%nat then ret (0%nat, literal)
      else number_finish src ptr literal (i + 1 + len) k false
    else number_finish src ptr literal i 0 false.
Proof.
  unfold parse_literal__number. cbv zeta.
  destruct (Ascii.eqb _ "."); cbv beta iota zeta; rewrite exponent_block;
    reflexivity.
Qed.

Lemma skip_digits_bound rest i :
  (i <= skip_digits rest i <= i + length rest)%nat
  /\ (isdigit rest.[0] = true -> (i < skip_digits rest i)%nat).
Proof.
  revert i. induction rest as [| c rest IH]; intros i; cbn [skip_digits length].
  - split; [lia |]. by vm_compute.
  - rewrite peek_0. destruct (isdigit c); [| split; [lia | done]].
    destruct (IH (S i)) as [Hb _]. split; [lia |]. intros _. lia.
Qed.

Lemma number_finish_result src ptr literal i k kind_ambiguous :
  exists w,
    number_finish src ptr literal i k kind_ambiguous
    = Some (i, set_number (str_ref ptr i)
                 (set_kind k (set_type PARSE_LITERAL_NUMBER literal)), w).
Proof.
  unfold number_finish.
  destruct (negb (sparse_sequential src ptr i)), kind_ambiguous; by eexists.
Qed.

Lemma parse_unsigned_result src ptr len k w :
  parse_unsigned src ptr = Some (len, k, w) ->
  (len <= length (text_at src ptr))%nat /\ 0 <= k < 2 ^ 32.
Proof.
  unfold parse_unsigned. intros Hrun.
  apply bind_Some in Hrun as ([len' u] & w1 & w2 & Hbase & Hrun & ->).
  apply parse_literal__base_bound in Hbase as [Hb _].
  destruct (len' =? 0)%nat; [injection Hrun as <- <- _; split; lia |].
  destruct (negb _); [injection Hrun as <- <- _; split; lia |].
  injection Hrun as <- <- _. split; [done |]. unfold u32.
  apply Z.mod_pos_bound. lia.
Qed.

Lemma parse_literal__number_cases src ptr literal len l w :
  parse_literal__number src ptr literal = Some (len, l, w) ->
  (len = 0%nat /\ l = literal)
  \/ (len <> 0%nat
      /\ (len <= length (text_at src ptr))%nat
      /\ exists k,
           0 <= k < 2 ^ 32
           /\ l = set_number (str_ref ptr len)
                    (set_kind k (set_type PARSE_LITERAL_NUMBER literal))).
Proof.
  rewrite parse_literal__number_eq. cbv zeta.
  set (p := text_at src ptr).
  set (i0 := if is_sign p.[0] then 1%nat else 0%nat).
  set (i1 := skip_digits (drop i0 p) i0).
  assert (i0 <= length p)%nat as Hi0.
  { subst i0. destruct (is_sign p.[0]) eqn:Hs; [| lia].
    assert (p.[0] <> NUL) as H0
      by (intros Heq; rewrite Heq in Hs; discriminate Hs).
    apply peek_lt in H0. lia. }
  destruct (skip_digits_bound (drop i0 p) i0) as [Hi1 Hadv].
  fold i1 in Hi1, Hadv. rewrite length_drop, peek_drop, Nat.add_0_r in *.
  set (i := if Ascii.eqb p.[i1] "." then _ else i1).
  assert ((i1 <= i <= length p)%nat
          /\ (Ascii.eqb p.[i1] "." = true -> (i1 < i)%nat)) as [Hi Hdot].
  { subst i. destruct (Ascii.eqb_spec p.[i1] ".") as [Hd | Hd];
      [| split; [lia | done]].
    apply peek_eq_lt in Hd; [| done].
    destruct (skip_digits_bound (drop (i1 + 1) p) (i1 + 1)) as [Hb _].
    rewrite length_drop in Hb. split; [lia |]. intros _. lia. }
  destruct (negb _ && negb (isdigit p.[i0])) eqn:Hnone;
    [intros [= <- <- _]; by left |].
  assert (0 < i)%nat as Hpos.
  { destruct (isdigit p.[i0]) eqn:Hint; [specialize (Hadv eq_refl); lia |].
    destruct (Ascii.eqb p.[i1] "."); [specialize (Hdot eq_refl); lia |].
    discriminate Hnone. }
  destruct (Ascii.eqb_spec p.[i] "_") as [Hund | Hund].
  - intros Hrun.
    apply bind_Some in Hrun as ([len' k] & w1 & w2 & Hu & Hrun & ->).
    destruct (Nat.eqb_spec len' 0) as [-> | Hne];
      [injection Hrun as <- <- _; by left |].
    apply parse_unsigned_result in Hu as [Hlen Hk].
    rewrite text_at_plus, length_drop in Hlen. fold p in Hlen.
    apply peek_eq_lt in Hund; [| done].
    destruct (number_finish_result src ptr literal (i + 1 + len') k false)
      as (w' & Hfin).
    rewrite Hfin in Hrun. injection Hrun as <- <- _. right.
    split; [lia |]. split; [lia |]. by exists k.
  - destruct (number_finish_result src ptr literal i 0 false) as (w' & Hfin).
    rewrite Hfin. intros [= <- <- _]. right.
    split; [lia |]. split; [lia |]. exists 0. split; [lia | done].
Qed.



(** After a run of digits that no digit and no dot follows, only the
    kind suffix is left to read. *)
Lemma number_after_digits src ptr literal ds rest :
  Forall decimal_digit ds -> ds <> [] ->
  isdigit rest.[0] = false -> rest.[0] <> "."%char ->
  text_at src ptr = ds ++ rest ->
  parse_literal__number src ptr literal
  = if Ascii.eqb rest.[0] "_"
    then
      do '(len, k) <- parse_unsigned src (ptr + (length ds + 1)) ;
      if (len =? 0)%nat then ret (0%nat, literal)
      else number_finish src ptr literal (length ds + 1 + len) k false
    else number_finish src ptr literal (length ds) 0 false.
Proof.
  intros Hds Hne Hrest Hdot Htext. rewrite parse_literal__number_eq, Htext.
  cbv zeta. destruct ds as [| c ds]; [done |].
  destruct (decimal_digit_isdigit c (Forall_inv Hds)) as [Hc Hsign].
  cbn [app]. rewrite peek_0, Hsign, peek_0, Hc.
  change (drop 0 (c :: ds ++ rest)) with ((c :: ds) ++ rest).
  rewrite skip_digits_run by done. cbn [Nat.add].
  change (c :: ds ++ rest) with ((c :: ds) ++ rest).
  assert (((c :: ds) ++ rest).[length (c :: ds)] = rest.[0]) as Hpk.
  { replace (length (c :: ds)) with (length (c :: ds) + 0)%nat at 1 by lia.
    apply peek_app_r. }
  apply Ascii.eqb_neq in Hdot. rewrite Hpk, Hdot. cbn [negb andb].
  by rewrite Hpk.
Qed.

(** An integer with a kind suffix: the digits, the underscore and the
    digits of the kind are consumed, and the kind stored is the number
    the suffix denotes. *)
Theorem number_kind_suffix src ptr literal ds ks rest :
  Forall decimal_digit ds -> ds <> [] ->
  Forall decimal_digit ks -> ks <> [] ->
  is_base_digit rest.[0] 10 = None ->
  run_value 10 ks < 2 ^ 32 ->
  text_at src ptr = ds ++ "_"%char :: ks ++ rest ->
  exists w,
    parse_literal__number src ptr literal
    = Some ((length ds + 1 + length ks)%nat,
            set_number (str_ref ptr (length ds + 1 + length ks))
              (set_kind (run_value 10 ks)
                 (set_type PARSE_LITERAL_NUMBER literal)), w).
Proof.
  intros Hds Hne Hks Hkne Hrest Hfit Htext.
  rewrite (number_after_digits src ptr literal ds ("_"%char :: ks ++ rest))
    by done.
  rewrite peek_0. cbn [Ascii.eqb Bool.eqb andb].
  destruct (parse_unsigned_run src (ptr + (length ds + 1)) ks rest)
    as (w1 & Hu & _); try done.
  { rewrite text_at_plus, Htext.
    replace (length ds + 1)%nat with (length (ds ++ ["_"%char]))
      by (rewrite length_app; cbn; lia).
    change ("_"%char :: ks ++ rest) with (["_"%char] ++ ks ++ rest).
    by rewrite app_assoc, drop_app_length. }
  rewrite Hu. cbn [bind].
  replace (length ks =? 0)%nat with false
    by (symmetry; apply Nat.eqb_neq; by destruct ks).
  destruct (number_finish_result src ptr literal (length ds + 1 + length ks)
              (run_value 10 ks) false) as (w2 & ->).
  by eexists.
Qed.

Lemma number_kind_suffix_42_8 :
  exists w,
    parse_literal__number (plain_source (chars "42_8)")) 0 blank_literal
    = Some (4%nat,
            set_number (str_ref 0 4)
              (set_kind 8 (set_type PARSE_LITERAL_NUMBER blank_literal)), w).
Proof.
  apply (number_kind_suffix (plain_source (chars "42_8)")) 0 blank_literal
           (chars "42") (chars "8") (chars ")")).
  - by apply decimal_digits_of_string.
  - discriminate.
  - by apply decimal_digits_of_string.
  - discriminate.
  - reflexivity.
  - by vm_compute.
  - reflexivity.
Defined.

(** An underscore that no digit follows makes the whole literal fail:
    the digits before it are not returned as a number, nothing is
    reported and the literal is left as it was. *)
Theorem number_kind_suffix_without_digits src ptr literal ds rest :
  Forall decimal_digit ds -> ds <> [] ->
  is_base_digit rest.[0] 10 = None ->
  text_at src ptr = ds ++ "_"%char :: rest ->
  parse_literal__number src ptr literal = Some (0%nat, literal, []).
Proof.
  intros Hds Hne Hrest Htext.
  rewrite (number_after_digits src ptr literal ds ("_"%char :: rest)) by done.
  rewrite peek_0. cbn [Ascii.eqb Bool.eqb andb].
  unfold parse_unsigned, parse_literal__base. cbv zeta. cbn [andb negb].
  rewrite text_at_plus, Htext.
  replace (length ds + 1)%nat with (length (ds ++ ["_"%char]))
    by (rewrite length_app; cbn; lia).
  change ("_"%char :: rest) with (["_"%char] ++ rest).
  by rewrite app_assoc, drop_app_length, Hrest.
Qed.

Lemma number_kind_suffix_without_digits_12_x :
  parse_literal__number (plain_source (chars "12_x")) 0 blank_literal
  = Some (0%nat, blank_literal, []).
Proof.
  apply (number_kind_suffix_without_digits (plain_source (chars "12_x")) 0
           blank_literal (chars "12") (chars "x")).
  - by apply decimal_digits_of_string.
  - discriminate.
  - reflexivity.
  - reflexivity.
Defined.

(** Without a digit there is no number: after the optional sign, a
    character that is no digit, and no dot with a digit behind it, gives
    0 without any diagnostic. *)
Theorem number_needs_a_digit src ptr literal :
  let p := text_at src ptr in
  let i0 := if is_sign p.[0] then 1%nat else 0%nat in
  isdigit p.[i0] = false ->
  (p.[i0] = "."%char -> isdigit p.[S i0] = false) ->
  parse_literal__number src ptr literal = Some (0%nat, literal, []).
Proof.
  intros p i0 Hint Hfract. rewrite parse_literal__number_eq. cbv zeta.
  fold p. fold i0. rewrite Hint.
  assert (skip_digits (drop i0 p) i0 = i0) as ->.
  { destruct (drop i0 p) as [| c tl] eqn:Hd; [done |]. cbn.
    assert (p.[i0] = c) as <-.
    { replace i0 with (i0 + 0)%nat at 1 by lia.
      by rewrite <- peek_drop, Hd. }
    by rewrite Hint. }
  destruct (Ascii.eqb_spec p.[i0] ".") as [Hd | Hd]; [| done].
  replace (i0 + 1)%nat with (S i0) by lia. by rewrite (Hfract Hd).
Qed.

Lemma number_needs_a_digit_sign_dot :
  parse_literal__number (plain_source (chars "-.e5")) 0 blank_literal
  = Some (0%nat, blank_literal, []).
Proof.
  apply (number_needs_a_digit (plain_source (chars "-.e5")) 0 blank_literal).
  - reflexivity.
  - reflexivity.
Defined.

(** ** Complex literals *)

Lemma matches_number_run indeterminate src ptr len :
  matches_number src ptr len ->
  exists l w,
    parse_literal__number src ptr indeterminate = Some (len, l, w)
    /\ lit_number l = str_ref ptr len.
Proof.
  intros (Hne & l0 & l & w & Hrun).
  destruct (parse_literal__number_defined src ptr indeterminate)
    as (len' & l' & w' & Hrun').
  pose proof (parse_literal__number_length _ _ _ _ _ _ _ _ _ _ Hrun Hrun') as <-.
  exists l', w'. split; [done |].
  apply parse_literal__number_cases in Hrun' as [[? _] | (_ & _ & k & _ & ->)];
    done.
Qed.

(** On a text of the shape [(] number [,] number [)] the complex
    recognizer consumes the two numbers and the three punctuation
    characters; the slices it stores are the texts of the two numbers,
    and the kinds of the two numbers are dropped: the kind of the
    literal is left as it was. *)
Theorem complex_literal_parts indeterminate src ptr literal len1 len2 :
  complex_shape src ptr len1 len2 ->
  exists l w,
    parse_literal__complex indeterminate src ptr literal
    = Some ((len1 + len2 + 3)%nat, l, w)
    /\ lit_type l = PARSE_LITERAL_COMPLEX
    /\ lit_complex_left_number l = str_ref (ptr + 1) len1
    /\ lit_complex_right_number l = str_ref (ptr + (2 + len1)) len2
    /\ lit_kind l = lit_kind literal.
Proof.
  intros (Hopen & Hn1 & Hcomma & Hn2 & Hclose).
  pose proof Hn1 as [Hne1 _]. pose proof Hn2 as [Hne2 _].
  destruct (matches_number_run indeterminate _ _ _ Hn1) as (l1 & w1 & Hr1 & Hs1).
  destruct (matches_number_run indeterminate _ _ _ Hn2) as (l2 & w2 & Hr2 & Hs2).
  unfold parse_literal__complex. cbv zeta.
  rewrite Hopen. cbn [Ascii.eqb Bool.eqb andb negb].
  rewrite Hr1. cbn [bind].
  replace (len1 =? 0)%nat with false by (symmetry; by apply Nat.eqb_neq).
  rewrite Hcomma. cbn [Ascii.eqb Bool.eqb andb negb].
  change (ptr + S (1 + len1))%nat with (ptr + (2 + len1))%nat.
  rewrite Hr2. cbn [bind].
  replace (len2 =? 0)%nat with false by (symmetry; by apply Nat.eqb_neq).
  change (S (1 + len1) + len2)%nat with (2 + len1 + len2)%nat.
  rewrite Hclose. cbn [Ascii.eqb Bool.eqb andb negb ret].
  eexists _, _. split; [do 3 f_equal; lia |]. by rewrite Hs1, Hs2.
Qed.

Lemma complex_literal_parts_example :
  exists l w,
    parse_literal__complex blank_literal (plain_source (chars "(-1,.5)")) 0
      blank_literal
    = Some ((2 + 2 + 3)%nat, l, w)
    /\ lit_type l = PARSE_LITERAL_COMPLEX
    /\ lit_complex_left_number l = str_ref (0 + 1) 2
    /\ lit_complex_right_number l = str_ref (0 + (2 + 2)) 2
    /\ lit_kind l = lit_kind blank_literal.
Proof.
  apply (complex_literal_parts blank_literal (plain_source (chars "(-1,.5)")) 0
           blank_literal 2 2).
  unfold complex_shape, matches_number.
  split; [reflexivity |]. split.
  { split; [discriminate | by exists blank_literal; eexists _, _]. }
  split; [reflexivity |]. split.
  { split; [discriminate | by exists blank_literal; eexists _, _]. }
  reflexivity.
Defined.

(** ** No recognizer consumes more than the text *)

Lemma peek_strlen (p : list ascii) : p.[strlen p] = NUL.
Proof.
  induction p as [| c p IH]; cbn [strlen]; [done |].
  destruct (Ascii.eqb_spec c NUL) as [-> | _]; [done |]. by rewrite peek_S.
Qed.

Lemma strlen_lt (p : list ascii) i :
  (i <= strlen p)%nat -> p.[i] <> NUL -> (i < strlen p)%nat.
Proof.
  intros Hi Hp. destruct (decide (i = strlen p)) as [-> | Hne]; [| lia].
  by rewrite peek_strlen in Hp.
Qed.

Lemma strlen_eq_lt (p : list ascii) i c :
  (i <= strlen p)%nat -> p.[i] = c -> c <> NUL -> (i < strlen p)%nat.
Proof. intros Hi <-. by apply strlen_lt. Qed.

Lemma strlen_drop (p : list ascii) k :
  (k <= strlen p)%nat -> strlen (drop k p) = (strlen p - k)%nat.
Proof.
  revert k. induction p as [| c p IH]; intros k; cbn [strlen].
  - intros Hk. replace k with 0%nat by lia. done.
  - destruct k as [| k]; [intros _; cbn [drop strlen]; lia |].
    destruct (Ascii.eqb c NUL); [lia |]. intros Hk. cbn [drop].
    rewrite IH by lia. lia.
Qed.

Lemma base_loop_strlen base value rest v i v' i' :
  base_loop base value rest v i = Some (v', i') ->
  (i' <= i + strlen rest)%nat.
Proof.
  revert v i. induction rest as [| c rest IH]; intros v i;
    cbn [base_loop strlen].
  - intros [= _ <-]. lia.
  - destruct (Ascii.eqb_spec c NUL) as [-> | _].
    + replace (is_base_digit NUL base) with (@None Z) by done.
      intros [= _ <-]. lia.
    + destruct (is_base_digit c base); [| intros [= _ <-]; lia].
      destruct value; [destruct (negb _ || negb _); [done |] |];
        intros Hb%IH; lia.
Qed.

Lemma skip_digits_strlen rest i :
  (i <= skip_digits rest i <= i + strlen rest)%nat.
Proof.
  revert i. induction rest as [| c rest IH]; intros i; cbn [skip_digits strlen].
  - lia.
  - destruct (Ascii.eqb_spec c NUL) as [-> | _]; [replace (isdigit NUL) with false by done; lia |].
    destruct (isdigit c); [| lia]. specialize (IH (S i)). lia.
Qed.

Lemma character_skip_strlen q rest e i :
  (character_skip q rest e i <= i + strlen rest)%nat.
Proof.
  revert e i. induction rest as [| c rest IH]; intros e i;
    cbn [character_skip strlen].
  - lia.
  - destruct (Ascii.eqb c NUL); cbn [negb andb]; [lia |].
    destruct (negb (Ascii.eqb c q) || e); [| lia].
    etrans; [apply IH |]. lia.
Qed.

Lemma hollerith_copy_strlen p n prest i pos base i' pos' base' :
  hollerith_copy p n prest i pos base = (i', pos', base') ->
  (i <= strlen p)%nat -> (i' <= strlen p)%nat.
Proof.
  revert i pos base. induction prest as [| c prest IH]; intros i pos base;
    cbn [hollerith_copy].
  - destruct (n <=? pos)%nat; intros [= <- _ _]; done.
  - destruct (n <=? pos)%nat; [intros [= <- _ _]; done |].
    destruct (is_line_end c) eqn:Hc; [intros [= <- _ _]; done |].
    intros Hrun Hi. apply IH in Hrun; [done |].
    destruct (Ascii.eqb_spec p.[i] c) as [Heq | _]; [| done].
    assert (p.[i] <> NUL) as Hn.
    { rewrite Heq. intros ->. discriminate Hc. }
    apply strlen_lt in Hn; lia.
Qed.

Lemma parse_literal__base_strlen src ptr base quoted value len v w :
  parse_literal__base src ptr base quoted value = Some (len, v, w) ->
  (len <= strlen (text_at src ptr))%nat.
Proof.
  unfold parse_literal__base. cbv zeta.
  set (p := text_at src ptr).
  destruct quoted; cbn [andb negb].
  - destruct (negb (Ascii.eqb p.[0] DQUOTE) && negb (Ascii.eqb p.[0] SQUOTE))
      eqn:Hq; [intros [= <- _ _]; lia |].
    assert (p.[0] <> NUL) as Hq0.
    { intros Heq. rewrite Heq in Hq. discriminate Hq. }
    pose proof (strlen_lt p 0 ltac:(lia) Hq0) as H1.
    destruct (is_base_digit p.[1] base) as [d |];
      [| intros [= <- _ _]; lia].
    destruct (base_loop base value (drop 1 p) 0 1) as [[v' i'] |] eqn:Hloop;
      [| intros [= <- _ _]; lia].
    apply base_loop_strlen in Hloop. rewrite strlen_drop in Hloop by lia.
    destruct (Ascii.eqb_spec p.[i'] p.[0]) as [Hclose | Hclose]; cbn [negb];
      [| intros [= <- _ _]; lia].
    assert (p.[i'] <> NUL) as Hi' by (by rewrite Hclose).
    apply strlen_lt in Hi'; [| lia]. intros [= <- _ _]. lia.
  - destruct (is_base_digit p.[0] base) as [d |];
      [| intros [= <- _ _]; lia].
    destruct (base_loop base value (drop 0 p) 0 0) as [[v' i'] |] eqn:Hloop;
      [| intros [= <- _ _]; lia].
    apply base_loop_strlen in Hloop. rewrite drop_0 in Hloop.
    destruct (negb (sparse_sequential _ _ _)); intros [= <- _ _]; lia.
Qed.

Lemma parse_unsigned_strlen src ptr len k w :
  parse_unsigned src ptr = Some (len, k, w) ->
  (len <= strlen (text_at src ptr))%nat.
Proof.
  unfold parse_unsigned. intros Hrun.
  apply bind_Some in Hrun as ([len' u] & w1 & w2 & Hbase & Hrun & ->).
  apply parse_literal__base_strlen in Hbase.
  destruct (len' =? 0)%nat; [injection Hrun as <- _ _; lia |].
  destruct (negb _); injection Hrun as <- _ _; lia.
Qed.

Lemma number_finish_length src ptr literal i k a len l w :
  number_finish src ptr literal i k a = Some (len, l, w) -> len = i.
Proof.
  destruct (number_finish_result src ptr literal i k a) as (w' & ->).
  by intros [= <- _ _].
Qed.

Lemma parse_literal__number_strlen src ptr literal len l w :
  parse_literal__number src ptr literal = Some (len, l, w) ->
  (len <= strlen (text_at src ptr))%nat.
Proof.
  rewrite parse_literal__number_eq. cbv zeta.
  set (p := text_at src ptr).
  set (i0 := if is_sign p.[0] then 1%nat else 0%nat).
  set (i1 := skip_digits (drop i0 p) i0).
  assert (i0 <= strlen p)%nat as Hi0.
  { subst i0. destruct (is_sign p.[0]) eqn:Hs; [| lia].
    assert (p.[0] <> NUL) as H0
      by (intros Heq; rewrite Heq in Hs; discriminate Hs).
    apply strlen_lt in H0; lia. }
  pose proof (skip_digits_strlen (drop i0 p) i0) as Hi1.
  fold i1 in Hi1. rewrite strlen_drop in Hi1 by done.
  set (i := if Ascii.eqb p.[i1] "." then _ else i1).
  assert (i <= strlen p)%nat as Hi.
  { subst i. destruct (Ascii.eqb_spec p.[i1] ".") as [Hd | Hd]; [| lia].
    apply strlen_eq_lt in Hd; [| lia | done].
    pose proof (skip_digits_strlen (drop (i1 + 1) p) (i1 + 1)) as Hb.
    rewrite strlen_drop in Hb by lia. lia. }
  destruct (negb _ && negb (isdigit p.[i0]));
    [intros [= <- _ _]; lia |].
  destruct (Ascii.eqb_spec p.[i] "_") as [Hund | Hund].
  - intros Hrun.
    apply bind_Some in Hrun as ([len' k] & w1 & w2 & Hu & Hrun & ->).
    destruct (len' =? 0)%nat; [injection Hrun as <- _ _; lia |].
    apply parse_unsigned_strlen in Hu.
    apply strlen_eq_lt in Hund; [| done | done].
    rewrite text_at_plus in Hu. fold p in Hu.
    rewrite strlen_drop in Hu by lia.
    apply number_finish_length in Hrun as ->. lia.
  - intros ->%number_finish_length. done.
Qed.

Lemma recognize_radix_strlen r src ptr literal len l w :
  recognize_radix r src ptr literal = Some (len, l, w) ->
  (len <= strlen (text_at src ptr))%nat.
Proof.
  assert (forall base,
            (toupper (text_at src ptr).[0] <> NUL) ->
            (do '(len, _) <- parse_literal__base src (ptr + 1) base true false ;
             if (len =? 0)%nat then ret (0%nat, literal)
             else ret ((len + 1)%nat,
                       set_type (radix_type r)
                         (set_number (str_ref (ptr + 1) len) literal)))
            = Some (len, l, w) ->
            (len <= strlen (text_at src ptr))%nat) as Hcore.
  { intros base Hletter Hrun.
    assert ((text_at src ptr).[0] <> NUL) as H0
      by (intros Heq; by rewrite Heq in Hletter).
    apply strlen_lt in H0; [| lia].
    apply bind_Some in Hrun as ([len' v] & w1 & w2 & Hbase & Hrun & ->).
    apply parse_literal__base_strlen in Hbase.
    rewrite text_at_plus, strlen_drop in Hbase by lia.
    destruct (len' =? 0)%nat; injection Hrun as <- _ _; lia. }
  destruct r; cbn [recognize_radix];
    [unfold parse_literal__binary | unfold parse_literal__octal
    | unfold parse_literal__hex]; cbv zeta.
  - destruct (Ascii.eqb_spec (toupper (text_at src ptr).[0]) "B") as [He |];
      cbn [negb]; [| intros [= <- _ _]; lia].
    apply (Hcore 2). by rewrite He.
  - destruct (Ascii.eqb_spec (toupper (text_at src ptr).[0]) "O") as [He |];
      cbn [negb]; [| intros [= <- _ _]; lia].
    apply (Hcore 8). by rewrite He.
  - destruct (Ascii.eqb_spec (toupper (text_at src ptr).[0]) "X") as [He |];
      cbn [negb andb]; [apply (Hcore 16); by rewrite He |].
    destruct (Ascii.eqb_spec (toupper (text_at src ptr).[0]) "Z") as [He |];
      cbn [negb]; [| intros [= <- _ _]; lia].
    apply (Hcore 16). by rewrite He.
Qed.

Lemma parse_hollerith_strlen alloc_fails src ptr string len s w :
  parse_hollerith alloc_fails src ptr string = Some (len, s, w) ->
  (len <= strlen (text_at src ptr))%nat.
Proof.
  unfold parse_hollerith. cbv zeta. intros Hrun.
  apply bind_Some in Hrun as ([i n] & w1 & w2 & Hu & Hrun & ->).
  apply parse_unsigned_strlen in Hu.
  destruct (i =? 0)%nat; [injection Hrun as <- _ _; lia |].
  destruct (Ascii.eqb_spec (toupper (text_at src ptr).[i]) "H") as [HH |];
    cbn [negb] in Hrun; [| injection Hrun as <- _ _; lia].
  assert ((text_at src ptr).[i] <> NUL) as Hn
    by (intros Heq; by rewrite Heq in HH).
  apply strlen_lt in Hn; [| done].
  destruct (sparse_parent_pointer src _) as [pptr |];
    [| injection Hrun as <- _ _; lia].
  destruct (string_empty _); [injection Hrun as <- _ _; lia |].
  destruct (hollerith_copy _ _ _ _ _ _) as [[i' pos'] base'] eqn:Hcopy.
  apply hollerith_copy_strlen in Hcopy; [| lia].
  by injection Hrun as <- _ _.
Qed.

(** The scan starts two characters after the opening quote: the bound
    needs the character after the opening quote to be part of the text. *)
Lemma parse_character_strlen alloc_fails src ptr string len s w :
  (text_at src ptr).[1] <> NUL ->
  parse_character alloc_fails src ptr string = Some (len, s, w) ->
  (len <= strlen (text_at src ptr))%nat.
Proof.
  unfold parse_character. cbv zeta. set (p := text_at src ptr).
  intros Hp1 Hrun.
  destruct (negb (Ascii.eqb p.[0] DQUOTE) && negb (Ascii.eqb p.[0] SQUOTE))
    eqn:Hq; [injection Hrun as <- _ _; lia |].
  assert (p.[0] <> NUL) as Hq0.
  { intros Heq. rewrite Heq in Hq. discriminate Hq. }
  pose proof (strlen_lt p 0 ltac:(lia) Hq0) as H1.
  pose proof (strlen_lt p 1 ltac:(lia) Hp1) as H2.
  destruct (sparse_parent_pointer src _) as [pptr |];
    [| injection Hrun as <- _ _; lia].
  cbn [Nat.add] in Hrun.
  pose proof (character_skip_strlen p.[0] (drop 2 p) false 2) as Hskip.
  rewrite strlen_drop in Hskip by lia.
  destruct (Ascii.eqb_spec p.[character_skip p.[0] (drop 2 p) false 2] p.[0])
    as [Hclose | _]; cbn [negb] in Hrun; [| injection Hrun as <- _ _; lia].
  apply strlen_eq_lt in Hclose; [| lia | done].
  destruct (character_measure _ _ _ _ _) as [[| j str_len] |];
    [injection Hrun as <- _ _; lia | | discriminate Hrun].
  destruct (string_empty _); [injection Hrun as <- _ _; lia |].
  apply bind_Some in Hrun as (b & w1 & w2 & _ & Hrun & _).
  injection Hrun as <- _ _. lia.
Qed.

Lemma parse_literal__logical_strlen parse_keyword src ptr literal len l w :
  (forall ptr' kw n w',
     parse_keyword src ptr' kw = Some (n, w') ->
     (n <= strlen (text_at src ptr'))%nat) ->
  parse_literal__logical parse_keyword src ptr literal = Some (len, l, w) ->
  (len <= strlen (text_at src ptr))%nat.
Proof.
  unfold parse_literal__logical. cbv zeta. intros Hkw Hrun.
  destruct (Ascii.eqb_spec (text_at src ptr).[0] ".") as [Hopen |];
    cbn [negb] in Hrun; [| injection Hrun as <- _ _; lia].
  apply strlen_eq_lt in Hopen; [| lia | done].
  apply bind_Some in Hrun as (len1 & w1 & w2 & Hk1 & Hrun & _).
  apply bind_Some in Hrun as (len2 & w3 & w4 & Hk2 & Hrun & _).
  assert (len2 <= strlen (text_at src (ptr + 1)))%nat as Hlen2.
  { destruct (len1 =? 0)%nat; [by apply Hkw in Hk2 |].
    injection Hk2 as <- _. by apply Hkw in Hk1. }
  rewrite text_at_plus, strlen_drop in Hlen2 by lia.
  destruct (len2 =? 0)%nat; [injection Hrun as <- _ _; lia |].
  destruct (Ascii.eqb_spec (text_at src ptr).[1 + len2] ".") as [Hdot |];
    cbn [negb] in Hrun; [| injection Hrun as <- _ _; lia].
  apply strlen_eq_lt in Hdot; [| lia | done]. injection Hrun as <- _ _. lia.
Qed.

Lemma parse_literal__complex_strlen indeterminate src ptr literal len l w :
  parse_literal__complex indeterminate src ptr literal = Some (len, l, w) ->
  (len <= strlen (text_at src ptr))%nat.
Proof.
  unfold parse_literal__complex. cbv zeta. intros Hrun.
  destruct (Ascii.eqb_spec (text_at src ptr).[0] "(") as [Hopen |];
    cbn [negb] in Hrun; [| injection Hrun as <- _ _; lia].
  apply strlen_eq_lt in Hopen; [| lia | done].
  apply bind_Some in Hrun as ([len1 l1] & w1 & w2 & Hn1 & Hrun & _).
  apply parse_literal__number_strlen in Hn1.
  rewrite text_at_plus, strlen_drop in Hn1 by lia.
  destruct (len1 =? 0)%nat; [injection Hrun as <- _ _; lia |].
  destruct (Ascii.eqb_spec (text_at src ptr).[1 + len1] ",") as [Hcomma |];
    cbn [negb] in Hrun; [| injection Hrun as <- _ _; lia].
  apply strlen_eq_lt in Hcomma; [| lia | done].
  apply bind_Some in Hrun as ([len2 l2] & w3 & w4 & Hn2 & Hrun & _).
  apply parse_literal__number_strlen in Hn2.
  rewrite text_at_plus, strlen_drop in Hn2 by lia.
  destruct (len2 =? 0)%nat; [injection Hrun as <- _ _; lia |].
  destruct (Ascii.eqb_spec (text_at src ptr).[S (1 + len1) + len2] ")")
    as [Hclose |]; cbn [negb] in Hrun; [| injection Hrun as <- _ _; lia].
  apply strlen_eq_lt in Hclose; [| lia | done]. injection Hrun as <- _ _. lia.
Qed.

Lemma try_next_strlen f src ptr st len l w :
  (forall l0 len' l' w',
     f src ptr l0 = Some (len', l', w') ->
     (len' <= strlen (text_at src ptr))%nat) ->
  (st.1 <= strlen (text_at src ptr))%nat ->
  try_next f src ptr st = Some (len, l, w) ->
  (len <= strlen (text_at src ptr))%nat.
Proof.
  intros Hf Hst. unfold try_next. destruct st as [len0 l0]. cbn in Hst.
  destruct (len0 =? 0)%nat; [apply Hf |]. by intros [= <- _ _].
Qed.

(** The length [parse_literal] returns never exceeds the length of the
    zero-terminated text at the cursor, whatever the parent text and the
    allocator are, under two conditions.  The keyword matcher stays
    within the text it is given.  And the text does not end right after
    an opening quote: there the scan of [parse_character], which starts
    two characters after the quote, reads the byte behind the
    terminator, and what it returns depends on that byte. *)
Theorem parse_literal_within_text alloc_fails parse_keyword indeterminate
    src ptr literal len l w :
  (forall ptr' kw n w',
     parse_keyword src ptr' kw = Some (n, w') ->
     (n <= strlen (text_at src ptr'))%nat) ->
  (is_quote (text_at src ptr).[0] -> (text_at src ptr).[1] <> NUL) ->
  parse_literal alloc_fails parse_keyword indeterminate src ptr literal
  = Some (len, l, w) ->
  (len <= strlen (text_at src ptr))%nat.
Proof.
  unfold parse_literal. cbv zeta. intros Hkw Hquote Hrun.
  apply bind_Some in Hrun as (st1 & ? & ? & H1 & Hrun & _).
  apply bind_Some in Hrun as (st2 & ? & ? & H2 & Hrun & _).
  apply bind_Some in Hrun as (st3 & ? & ? & H3 & Hrun & _).
  apply bind_Some in Hrun as (st4 & ? & ? & H4 & Hrun & _).
  apply bind_Some in Hrun as (st5 & ? & ? & H5 & Hrun & _).
  apply bind_Some in Hrun as (st6 & ? & ? & H6 & Hrun & _).
  apply bind_Some in Hrun as (st7 & ? & ? & H7 & Hrun & _).
  apply bind_Some in Hrun as ([len8 l8] & ? & ? & H8 & Hrun & _).
  destruct st1 as [n1 l1], st2 as [n2 l2], st3 as [n3 l3], st4 as [n4 l4],
    st5 as [n5 l5], st6 as [n6 l6], st7 as [n7 l7].
  apply try_next_strlen in H1; [| | cbn; lia].
  2: { intros l0 len' l' w' Hf. unfold parse_literal__character in Hf.
       apply bind_Some in Hf as ([n s] & ? & ? & Hc & Hf & _).
       assert (n <= strlen (text_at src ptr))%nat as Hn.
       { destruct (negb (Ascii.eqb (text_at src ptr).[0] DQUOTE)
                   && negb (Ascii.eqb (text_at src ptr).[0] SQUOTE)) eqn:Hq.
         - unfold parse_character in Hc. cbv zeta in Hc. rewrite Hq in Hc.
           injection Hc as <- _ _. lia.
         - refine (parse_character_strlen _ _ _ _ _ _ _ (Hquote _) Hc).
           unfold is_quote.
           destruct (Ascii.eqb_spec (text_at src ptr).[0] DQUOTE) as [He |];
             [by auto |].
           destruct (Ascii.eqb_spec (text_at src ptr).[0] SQUOTE) as [He |];
             [by auto | done]. }
       destruct (n =? 0)%nat; injection Hf as <- _ _; lia. }
  apply try_next_strlen in H2; [| | done].
  2: { intros l0 len' l' w' Hf. unfold parse_literal__hollerith in Hf.
       apply bind_Some in Hf as ([n s] & ? & ? & Hc & Hf & _).
       apply parse_hollerith_strlen in Hc.
       destruct (n =? 0)%nat; injection Hf as <- _ _; lia. }
  apply try_next_strlen in H3;
    [| intros *; apply parse_literal__complex_strlen | done].
  apply try_next_strlen in H4;
    [| intros *; apply (recognize_radix_strlen Binary) | done].
  apply try_next_strlen in H5;
    [| intros *; apply (recognize_radix_strlen Octal) | done].
  apply try_next_strlen in H6;
    [| intros *; apply (recognize_radix_strlen Hex) | done].
  apply try_next_strlen in H7;
    [| intros *; by apply parse_literal__logical_strlen | done].
  apply try_next_strlen in H8;
    [| intros *; apply parse_literal__number_strlen | done].
  destruct (len8 =? 0)%nat; injection Hrun as <- _ _; lia.
Qed.

(** A character literal that fills the text: the bound is reached. *)
Lemma parse_literal_within_text_string :
  parse_literal never_fails no_keyword blank_literal
    (plain_source (chars "'ab'")) 0 blank_literal
  = Some (4%nat,
          set_type PARSE_LITERAL_CHARACTER
            (set_string (string_buf (chars "ab")) (set_kind 0 blank_literal)),
          [])
  /\ (4 <= strlen (text_at (plain_source (chars "'ab'")) 0))%nat.
Proof.
  split; [reflexivity |].
  apply (parse_literal_within_text never_fails no_keyword blank_literal
           (plain_source (chars "'ab'")) 0 blank_literal 4
           (set_type PARSE_LITERAL_CHARACTER
              (set_string (string_buf (chars "ab")) (set_kind 0 blank_literal)))
           []).
  - intros ptr' kw n w' [= <- _]. lia.
  - intros _. discriminate.
  - reflexivity.
Defined.

(** The text excluded above: an opening quote at the end of the text.
    With the bytes NUL and a quote behind it the dispatcher returns 3
    for a text of length 1. *)
Example parse_literal_behind_the_terminator :
  strlen [SQUOTE; NUL; SQUOTE] = 1%nat
  /\ exists l w,
       parse_literal never_fails no_keyword blank_literal
         (plain_source [SQUOTE; NUL; SQUOTE]) 0 blank_literal
       = Some (3%nat, l, w).
Proof. split; [reflexivity |]. by eexists _, _. Qed.

(** ** What the dispatcher returns *)

Lemma parse_literal__character_tag alloc_fails src ptr l0 len l w :
  parse_literal__character alloc_fails src ptr l0 = Some (len, l, w) ->
  lit_kind l = lit_kind l0 /\ (len <> 0%nat -> owned_ok l).
Proof.
  unfold parse_literal__character. intros Hrun.
  apply bind_Some in Hrun as ([n s] & w1 & w2 & Hc & Hrun & _).
  destruct (Nat.eqb_spec n 0) as [-> | Hn]; injection Hrun as <- <- _;
    (split; [done |]); [done |]. intros _.
  apply parse_character_buffer in Hc as (? & ? & ? & _ & _ & _ & ->); done.
Qed.

Lemma parse_hollerith_buffer alloc_fails src ptr string len s w :
  parse_hollerith alloc_fails src ptr string = Some (len, s, w) ->
  len <> 0%nat -> string_empty s = false.
Proof.
  unfold parse_hollerith. cbv zeta. intros Hrun Hlen.
  apply bind_Some in Hrun as ([i n] & w1 & w2 & _ & Hrun & _).
  destruct (i =? 0)%nat; [by injection Hrun as <- _ _ |].
  destruct (negb _); [by injection Hrun as <- _ _ |].
  destruct (sparse_parent_pointer src _) as [pptr |];
    [| by injection Hrun as <- _ _].
  destruct (string_empty _); [by injection Hrun as <- _ _ |].
  destruct (hollerith_copy _ _ _ _ _ _) as [[i' pos'] base'].
  by injection Hrun as _ <- _.
Qed.

Lemma parse_literal__hollerith_tag alloc_fails src ptr l0 len l w :
  parse_literal__hollerith alloc_fails src ptr l0 = Some (len, l, w) ->
  lit_kind l = lit_kind l0 /\ (len <> 0%nat -> owned_ok l).
Proof.
  unfold parse_literal__hollerith. intros Hrun.
  apply bind_Some in Hrun as ([n s] & w1 & w2 & Hc & Hrun & _).
  destruct (Nat.eqb_spec n 0) as [-> | Hn]; injection Hrun as <- <- _;
    (split; [done |]); [done |]. intros _.
  by apply (parse_hollerith_buffer _ _ _ _ _ _ _ Hc).
Qed.

Lemma parse_literal__complex_tag indeterminate src ptr l0 len l w :
  parse_literal__complex indeterminate src ptr l0 = Some (len, l, w) ->
  lit_kind l = lit_kind l0 /\ (len <> 0%nat -> owned_ok l).
Proof.
  unfold parse_literal__complex. cbv zeta. intros Hrun.
  destruct (negb _); [by injection Hrun as <- <- _ |].
  apply bind_Some in Hrun as ([len1 l1] & w1 & w2 & _ & Hrun & _).
  destruct (len1 =? 0)%nat; [by injection Hrun as <- <- _ |].
  destruct (negb _); [by injection Hrun as <- <- _ |].
  apply bind_Some in Hrun as ([len2 l2] & w3 & w4 & _ & Hrun & _).
  destruct (len2 =? 0)%nat; [by injection Hrun as <- <- _ |].
  destruct (negb _); by injection Hrun as <- <- _.
Qed.

Lemma recognize_radix_tag r src ptr l0 len l w :
  recognize_radix r src ptr l0 = Some (len, l, w) ->
  lit_kind l = lit_kind l0 /\ (len <> 0%nat -> owned_ok l).
Proof.
  destruct r; cbn [recognize_radix];
    [unfold parse_literal__binary | unfold parse_literal__octal
    | unfold parse_literal__hex]; cbv zeta; intros Hrun.
  all: match type of Hrun with (if ?b then _ else _) = _ => destruct b end;
    [by injection Hrun as <- <- _ |].
  all: apply bind_Some in Hrun as ([n v] & w1 & w2 & _ & Hrun & _).
  all: destruct (n =? 0)%nat; by injection Hrun as <- <- _.
Qed.

Lemma parse_literal__logical_tag parse_keyword src ptr l0 len l w :
  parse_literal__logical parse_keyword src ptr l0 = Some (len, l, w) ->
  lit_kind l = lit_kind l0 /\ (len <> 0%nat -> owned_ok l).
Proof.
  unfold parse_literal__logical. cbv zeta. intros Hrun.
  destruct (negb _); [by injection Hrun as <- <- _ |].
  apply bind_Some in Hrun as (len1 & w1 & w2 & _ & Hrun & _).
  apply bind_Some in Hrun as (len2 & w3 & w4 & _ & Hrun & _).
  destruct (len2 =? 0)%nat; [by injection Hrun as <- <- _ |].
  destruct (negb _); by injection Hrun as <- <- _.
Qed.

Lemma try_next_tag f src ptr st len l w :
  (forall l0 len' l' w',
     f src ptr l0 = Some (len', l', w') ->
     lit_kind l' = lit_kind l0 /\ (len' <> 0%nat -> owned_ok l')) ->
  lit_kind st.2 = 0 /\ (st.1 <> 0%nat -> owned_ok st.2) ->
  try_next f src ptr st = Some (len, l, w) ->
  lit_kind l = 0 /\ (len <> 0%nat -> owned_ok l).
Proof.
  intros Hf [Hk Ho]. unfold try_next. destruct st as [len0 l0]. cbn in Hk, Ho.
  destruct (len0 =? 0)%nat.
  - intros [Hk' Ho']%Hf. split; [congruence | done].
  - by intros [= <- <- _].
Qed.

(** What a caller may rely on when [parse_literal] succeeds: a literal
    tagged as a character or Hollerith literal holds a buffer, so that
    the cleanup releases a buffer that was allocated, and every literal
    that is not tagged as a number has kind 0. *)
Theorem parse_literal_tagged alloc_fails parse_keyword indeterminate
    src ptr literal len l w :
  parse_literal alloc_fails parse_keyword indeterminate src ptr literal
  = Some (len, l, w) ->
  len <> 0%nat ->
  owned_ok l /\ (lit_type l <> PARSE_LITERAL_NUMBER -> lit_kind l = 0).
Proof.
  unfold parse_literal. cbv zeta. intros Hrun Hlen.
  apply bind_Some in Hrun as (st1 & ? & ? & H1 & Hrun & _).
  apply bind_Some in Hrun as (st2 & ? & ? & H2 & Hrun & _).
  apply bind_Some in Hrun as (st3 & ? & ? & H3 & Hrun & _).
  apply bind_Some in Hrun as (st4 & ? & ? & H4 & Hrun & _).
  apply bind_Some in Hrun as (st5 & ? & ? & H5 & Hrun & _).
  apply bind_Some in Hrun as (st6 & ? & ? & H6 & Hrun & _).
  apply bind_Some in Hrun as (st7 & ? & ? & H7 & Hrun & _).
  apply bind_Some in Hrun as ([len8 l8] & ? & ? & H8 & Hrun & _).
  destruct st1 as [n1 l1], st2 as [n2 l2], st3 as [n3 l3], st4 as [n4 l4],
    st5 as [n5 l5], st6 as [n6 l6], st7 as [n7 l7].
  apply try_next_tag in H1;
    [| intros *; apply parse_literal__character_tag | by split].
  apply try_next_tag in H2;
    [| intros *; apply parse_literal__hollerith_tag | done].
  apply try_next_tag in H3;
    [| intros *; apply parse_literal__complex_tag | done].
  apply try_next_tag in H4;
    [| intros *; apply (recognize_radix_tag Binary) | done].
  apply try_next_tag in H5;
    [| intros *; apply (recognize_radix_tag Octal) | done].
  apply try_next_tag in H6;
    [| intros *; apply (recognize_radix_tag Hex) | done].
  apply try_next_tag in H7;
    [| intros *; apply parse_literal__logical_tag | done].
  destruct H7 as [Hk7 Ho7]. cbn [fst snd] in Hk7, Ho7.
  destruct (Nat.eqb_spec len8 0) as [-> | Hne8];
    [by injection Hrun as <- _ _ |].
  injection Hrun as <- <- _. unfold try_next in H8.
  destruct (Nat.eqb_spec n7 0) as [-> | Hne7].
  - apply parse_literal__number_cases in H8
      as [[? _] | (_ & _ & k & _ & ->)]; [done |].
    split; [done |]. by cbn.
  - injection H8 as <- <- _. split; [by apply Ho7 | done].
Qed.

Lemma parse_literal_tagged_string :
  parse_literal never_fails no_keyword blank_literal
    (plain_source (chars "'ab'")) 0 blank_literal
  = Some (4%nat,
          set_type PARSE_LITERAL_CHARACTER
            (set_string (string_buf (chars "ab")) (set_kind 0 blank_literal)),
          [])
  /\ owned_ok
       (set_type PARSE_LITERAL_CHARACTER
          (set_string (string_buf (chars "ab")) (set_kind 0 blank_literal))).
Proof.
  split; [reflexivity |].
  apply (parse_literal_tagged never_fails no_keyword blank_literal
           (plain_source (chars "'ab'")) 0 blank_literal 4
           (set_type PARSE_LITERAL_CHARACTER
              (set_string (string_buf (chars "ab")) (set_kind 0 blank_literal)))
           []).
  - reflexivity.
  - discriminate.
Defined.

(** ** Integers through the dispatcher *)

Lemma decimal_digit_facts c :
  decimal_digit c ->
  negb (Ascii.eqb c DQUOTE) && negb (Ascii.eqb c SQUOTE) = true
  /\ Ascii.eqb c "(" = false
  /\ Ascii.eqb (toupper c) "B" = false
  /\ Ascii.eqb (toupper c) "O" = false
  /\ Ascii.eqb (toupper c) "X" = false
  /\ Ascii.eqb (toupper c) "Z" = false
  /\ Ascii.eqb c "." = false.
Proof.
  unfold decimal_digit. cbn. intros H.
  repeat (apply elem_of_cons in H as [-> | H]; [by vm_compute |]).
  by apply elem_of_nil in H.
Qed.

Lemma not_digit_base_10 c : isdigit c = false -> is_base_digit c 10 = None.
Proof.
  intros Hc.
  assert (isdigit c
          || match is_base_digit c 10 with Some _ => false | None => true end
          = true) as H
    by (clear Hc; revert c; apply every_ascii; by vm_compute).
  rewrite Hc in H. by destruct (is_base_digit c 10).
Qed.

Lemma decimal_overflow_bound src ptr s rest :
  Forall decimal_digit s -> 2 ^ 64 <= run_value 10 s ->
  text_at src ptr = s ++ rest ->
  parse_literal__base src ptr 10 false true
  = Some (0%nat, 0, [Warning ptr overflow_message])
  /\ parse_unsigned src ptr = Some (0%nat, 0, [Warning ptr overflow_message]).
Proof.
  intros Hs Hover Htext.
  pose proof (parse_literal__base_overflow src ptr s rest Hs Hover Htext) as Hb.
  split; [done |]. unfold parse_unsigned. by rewrite Hb.
Qed.

Lemma parse_literal__base_run_log src ptr s rest :
  Forall decimal_digit s -> s <> [] -> run_value 10 s < 2 ^ 64 ->
  is_base_digit rest.[0] 10 = None ->
  text_at src ptr = s ++ rest ->
  parse_literal__base src ptr 10 false true
  = Some (length s, run_value 10 s,
          if sparse_sequential src ptr (length s) then []
          else [Warning ptr "Unexpected whitespace in literal"]).
Proof.
  intros Hs Hne Hfit Hrest Htext. unfold parse_literal__base. rewrite Htext.
  cbv zeta. cbn [andb]. destruct s as [| c s]; [done |].
  cbn [app]. rewrite peek_0.
  destruct (decimal_digit_base c (Forall_inv Hs)) as [-> _].
  change (drop 0 (c :: s ++ rest)) with ((c :: s) ++ rest).
  rewrite base_loop_exact by done. cbn [andb negb].
  by destruct (sparse_sequential _ _ _).
Qed.

Lemma number_finish_log src ptr literal i k :
  number_finish src ptr literal i k false
  = Some (i, set_number (str_ref ptr i)
               (set_kind k (set_type PARSE_LITERAL_NUMBER literal)),
          if sparse_sequential src ptr i then []
          else [Warning ptr "Unexpected whitespace in literal number"]).
Proof.
  unfold number_finish. by destruct (sparse_sequential src ptr i).
Qed.

(** A run of digits that no [H] follows is no Hollerith literal; the
    diagnostics are those of the count. *)
Lemma parse_hollerith_without_H alloc_fails src ptr string ds rest :
  Forall decimal_digit ds -> ds <> [] ->
  isdigit rest.[0] = false ->
  toupper rest.[0] <> "H"%char ->
  text_at src ptr = ds ++ rest ->
  parse_hollerith alloc_fails src ptr string
  = Some (0%nat, string,
          if 2 ^ 64 <=? run_value 10 ds then [Warning ptr overflow_message]
          else if sparse_sequential src ptr (length ds) then []
               else [Warning ptr "Unexpected whitespace in literal"]).
Proof.
  intros Hds Hne Hrest HH Htext. unfold parse_hollerith. cbv zeta.
  destruct (Z.leb_spec (2 ^ 64) (run_value 10 ds)) as [Hover | Hfit].
  - destruct (decimal_overflow_bound src ptr ds rest Hds Hover Htext) as [_ ->].
    reflexivity.
  - rewrite <- (app_nil_r (if sparse_sequential src ptr (length ds) then _ else _)).
    unfold parse_unsigned.
    rewrite (parse_literal__base_run_log src ptr ds rest Hds Hne Hfit
               (not_digit_base_10 _ Hrest) Htext).
    cbn [bind].
    replace (length ds =? 0)%nat with false
      by (symmetry; apply Nat.eqb_neq; by destruct ds).
    destruct (negb _); cbn [ret bind app Nat.eqb];
      [by rewrite !app_nil_r |].
    replace (length ds =? 0)%nat with false
      by (symmetry; apply Nat.eqb_neq; by destruct ds).
    assert ((text_at src ptr).[length ds] = rest.[0]) as ->.
    { rewrite Htext. replace (length ds) with (length ds + 0)%nat at 1 by lia.
      apply peek_app_r. }
    apply Ascii.eqb_neq in HH. rewrite HH. cbn [negb ret].
    by rewrite !app_nil_r.
Qed.

(** A decimal integer goes through the whole dispatcher and comes out
    as a number: when the digits are followed by a character that is no
    digit, dot, underscore or [H], every recognizer before the numeric
    one returns 0 and the result is a number of kind 0 whose slice is
    the digit run, whatever the value of the run.  The diagnostics are
    exactly [integer_log]: the overflow warning of the Hollerith attempt
    when the value is beyond 64 bits, the whitespace warning of the
    engine otherwise when the digits are not contiguous, and then the
    whitespace warning of the numeric recognizer when the digits are not
    contiguous; contiguous digits whose value fits emit nothing. *)
Theorem parse_literal_integer alloc_fails parse_keyword indeterminate
    src ptr literal ds rest :
  Forall decimal_digit ds -> ds <> [] ->
  isdigit rest.[0] = false ->
  rest.[0] <> "."%char -> rest.[0] <> "_"%char ->
  toupper rest.[0] <> "H"%char ->
  text_at src ptr = ds ++ rest ->
  exists l,
    parse_literal alloc_fails parse_keyword indeterminate src ptr literal
    = Some (length ds, l, integer_log src ptr ds)
    /\ lit_type l = PARSE_LITERAL_NUMBER
    /\ lit_kind l = 0
    /\ lit_number l = str_ref ptr (length ds)
    /\ str_ref_text src (lit_number l) = ds.
Proof.
  intros Hds Hne Hrest Hdot Hund HH Htext.
  assert (exists c, (text_at src ptr).[0] = c /\ decimal_digit c) as (c & Hp0 & Hc).
  { rewrite Htext. destruct ds as [| c ds]; [done |]. exists c.
    split; [done | by apply Forall_inv in Hds]. }
  destruct (decimal_digit_facts c Hc) as (Hq & Hpar & HB & HO & HX & HZ & Hd).
  unfold parse_literal, try_next. cbv zeta. cbn [Nat.eqb].
  unfold parse_literal__character, parse_character. cbv zeta.
  rewrite Hp0, Hq. cbn [bind ret Nat.eqb app].
  unfold parse_literal__hollerith.
  rewrite (parse_hollerith_without_H alloc_fails src ptr _ ds rest) by done.
  cbn [bind ret Nat.eqb].
  unfold parse_literal__complex. cbv zeta. rewrite Hp0, Hpar.
  cbn [negb bind ret Nat.eqb].
  unfold parse_literal__binary. cbv zeta. rewrite Hp0, HB.
  cbn [negb bind ret Nat.eqb].
  unfold parse_literal__octal. cbv zeta. rewrite Hp0, HO.
  cbn [negb bind ret Nat.eqb].
  unfold parse_literal__hex. cbv zeta. rewrite Hp0, HX, HZ.
  cbn [negb andb bind ret Nat.eqb].
  unfold parse_literal__logical. cbv zeta. rewrite Hp0, Hd.
  cbn [negb bind ret Nat.eqb].
  rewrite (number_after_digits src ptr _ ds rest) by done.
  apply Ascii.eqb_neq in Hund. rewrite Hund, number_finish_log.
  cbn [bind ret].
  replace (length ds =? 0)%nat with false
    by (symmetry; apply Nat.eqb_neq; by destruct ds).
  cbv beta iota zeta delta [bind ret]. eexists. split.
  - unfold integer_log. rewrite ?app_nil_r. cbn [app]. reflexivity.
  - cbn [lit_type lit_kind lit_number set_type set_kind set_number].
    repeat split. unfold str_ref_text. cbn [sr_size sr_base].
    by rewrite Htext, take_app_length.
Qed.

(** An integer too large for 64 bits: a number all the same, with the
    warning of the Hollerith attempt and no other diagnostic. *)
Lemma parse_literal_integer_wide :
  integer_log (plain_source (chars "18446744073709551616")) 0
    (chars "18446744073709551616")
  = [Warning 0%nat overflow_message]
  /\ exists l,
       parse_literal never_fails no_keyword blank_literal
         (plain_source (chars "18446744073709551616")) 0 blank_literal
       = Some (length (chars "18446744073709551616"), l,
               integer_log (plain_source (chars "18446744073709551616")) 0
                 (chars "18446744073709551616"))
       /\ lit_type l = PARSE_LITERAL_NUMBER
       /\ lit_kind l = 0
       /\ lit_number l = str_ref 0 (length (chars "18446744073709551616"))
       /\ str_ref_text (plain_source (chars "18446744073709551616"))
            (lit_number l)
          = chars "18446744073709551616".
Proof.
  split; [by vm_compute |].
  apply (parse_literal_integer never_fails no_keyword blank_literal
           (plain_source (chars "18446744073709551616")) 0 blank_literal
           (chars "18446744073709551616") []).
  - by apply decimal_digits_of_string.
  - discriminate.
  - reflexivity.
  - discriminate.
  - discriminate.
  - discriminate.
  - reflexivity.
Defined.

(** ** Line ends inside a character literal *)

Lemma character_measure_line_end q content c tail e j n :
  literal_prefix q e content -> c = CR \/ c = LF -> is_quote q ->
  character_measure q (content ++ c :: tail) e j n = Some End_of_line.
Proof.
  intros Hlit Hc Hq. revert e j n Hlit.
  induction content as [| d content IH]; intros e j n Hlit; cbn.
  - replace (negb (Ascii.eqb c q) || e) with true
      by (by destruct Hc as [-> | ->], Hq as [-> | ->]).
    by destruct Hc as [-> | ->].
  - destruct Hlit as (Hcr & Hlf & Hdq & Hrest).
    replace (negb (Ascii.eqb d q) || e) with true.
    2: { destruct e; [by rewrite orb_true_r |].
         specialize (Hdq eq_refl). apply Ascii.eqb_neq in Hdq. by rewrite Hdq. }
    apply Ascii.eqb_neq in Hcr, Hlf. rewrite Hcr, Hlf. cbn [orb].
    destruct e; cbn [negb andb] in *.
    + rewrite andb_false_r. by apply IH.
    + rewrite andb_true_r. destruct (Ascii.eqb d BACKSLASH); by apply IH.
Qed.

(** A carriage return or a line feed in the parent text before the
    closing quote makes the literal fail, whether a backslash precedes
    it or not and whatever the condensed text holds: 0 is returned, the
    string is left as it was and one error is reported, the unterminated
    string when the condensed text has no closing quote and the end of
    line else. *)
Theorem parse_character_line_end alloc_fails src ptr q pptr content c tail
    string :
  is_quote q -> (text_at src ptr).[0] = q ->
  sparse_parent_pointer src ptr = Some pptr ->
  drop 1 pptr = content ++ c :: tail ->
  literal_prefix q false content -> c = CR \/ c = LF ->
  parse_character alloc_fails src ptr string
  = Some (0%nat, string, [Error ptr "Unterminated string"])
  \/ parse_character alloc_fails src ptr string
     = Some (0%nat, string,
             [Error ptr "Unexpected end of line in character constant"]).
Proof.
  intros Hq Hp0 Hparent Hptext Hlit Hc.
  unfold parse_character. cbv zeta.
  rewrite Nat.add_0_r, Hp0, Hparent, (quote_cases q Hq), Hptext.
  rewrite (character_measure_line_end q content c tail false 1 0) by done.
  destruct (negb _); [by left | by right].
Qed.

Lemma parse_character_line_end_escaped :
  parse_character never_fails
    (plain_source (chars "'ab\" ++ LF :: chars "cd'")) 0 STRING_EMPTY
  = Some (0%nat, STRING_EMPTY, [Error 0%nat "Unterminated string"])
  \/ parse_character never_fails
       (plain_source (chars "'ab\" ++ LF :: chars "cd'")) 0 STRING_EMPTY
     = Some (0%nat, STRING_EMPTY,
             [Error 0%nat "Unexpected end of line in character constant"]).
Proof.
  apply (parse_character_line_end never_fails
           (plain_source (chars "'ab\" ++ LF :: chars "cd'")) 0 "'"%char
           (chars "'ab\" ++ LF :: chars "cd'") (chars "ab\") LF (chars "cd'")
           STRING_EMPTY).
  - by left.
  - reflexivity.
  - reflexivity.
  - reflexivity.
  - cbn. repeat split; first [discriminate | intros ?; discriminate].
  - by right.
Defined.

(** ** Hollerith literals and numbers overlap *)

Lemma isdigit_facts c :
  isdigit c = true ->
  is_sign c = false
  /\ negb (Ascii.eqb c DQUOTE) && negb (Ascii.eqb c SQUOTE) = true
  /\ is_Some (is_base_digit c 10).
Proof.
  intros Hc.
  assert (negb (isdigit c)
          || negb (is_sign c)
             && (negb (Ascii.eqb c DQUOTE) && negb (Ascii.eqb c SQUOTE))
             && match is_base_digit c 10 with Some _ => true | None => false end
          = true) as H
    by (clear Hc; revert c; apply every_ascii; by vm_compute).
  rewrite Hc in H. cbn [negb orb] in H.
  apply andb_true_iff in H as [[H1 H2]%andb_true_iff H3].
  apply negb_true_iff in H1. repeat split; try done.
  by destruct (is_base_digit c 10).
Qed.

Lemma letter_H_facts c :
  toupper c = "H"%char -> Ascii.eqb c "." = false /\ Ascii.eqb c "_" = false.
Proof.
  intros Hc. split; apply Ascii.eqb_neq; intros ->; discriminate Hc.
Qed.

Lemma base_loop_skip_digits value rest v i v' i' :
  base_loop 10 value rest v i = Some (v', i') -> i' = skip_digits rest i.
Proof.
  revert v i. induction rest as [| c rest IH]; intros v i; cbn.
  - by intros [= _ <-].
  - destruct (isdigit c) eqn:Hc.
    + destruct (isdigit_facts c Hc) as (_ & _ & [d ->]).
      destruct value; [destruct (negb _ || negb _); [done |] |]; apply IH.
    + rewrite (not_digit_base_10 c Hc). by intros [= _ <-].
Qed.

Lemma parse_unsigned_digits src ptr i n w :
  parse_unsigned src ptr = Some (i, n, w) -> i <> 0%nat ->
  i = skip_digits (text_at src ptr) 0
  /\ isdigit (text_at src ptr).[0] = true.
Proof.
  unfold parse_unsigned. intros Hrun Hi.
  apply bind_Some in Hrun as ([len u] & w1 & w2 & Hbase & Hrun & _).
  destruct (Nat.eqb_spec len 0) as [-> | Hlen]; [by injection Hrun as <- _ _ |].
  destruct (negb _); [by injection Hrun as <- _ _ |].
  injection Hrun as <- _ _. clear Hi.
  unfold parse_literal__base in Hbase. cbv zeta in Hbase.
  cbn [andb negb] in Hbase.
  destruct (is_base_digit (text_at src ptr).[0] 10) as [d |] eqn:Hd;
    [| by injection Hbase as <- _ _].
  destruct (base_loop _ _ _ _ _) as [[v' i'] |] eqn:Hloop;
    [| by injection Hbase as <- _ _].
  apply base_loop_skip_digits in Hloop. rewrite drop_0 in Hloop.
  split.
  - destruct (negb (sparse_sequential _ _ _)); by injection Hbase as <- _ _.
  - destruct (isdigit (text_at src ptr).[0]) eqn:Hc; [done |].
    by rewrite (not_digit_base_10 _ Hc) in Hd.
Qed.

Lemma hollerith_copy_ge p n prest i pos base i' pos' base' :
  hollerith_copy p n prest i pos base = (i', pos', base') -> (i <= i')%nat.
Proof.
  revert i pos base. induction prest as [| c prest IH]; intros i pos base;
    cbn [hollerith_copy].
  - destruct (n <=? pos)%nat; intros [= <- _ _]; done.
  - destruct (n <=? pos)%nat; [intros [= <- _ _]; done |].
    destruct (is_line_end c); [intros [= <- _ _]; done |].
    intros Hrun%IH. destruct (Ascii.eqb p.[i] c); lia.
Qed.

(** The recognizers are not exclusive: wherever the Hollerith
    recognizer succeeds, the numeric recognizer succeeds as well, on the
    count alone.  The order of the dispatcher decides: [parse_literal]
    returns the Hollerith literal. *)
Theorem hollerith_is_also_a_number alloc_fails parse_keyword indeterminate
    src ptr string literal len s w :
  parse_hollerith alloc_fails src ptr string = Some (len, s, w) ->
  len <> 0%nat ->
  (exists i l' w',
     parse_literal__number src ptr literal = Some (i, l', w')
     /\ i <> 0%nat /\ (i < len)%nat)
  /\ (exists l w',
        parse_literal alloc_fails parse_keyword indeterminate src ptr literal
        = Some (len, l, w')
        /\ lit_type l = PARSE_LITERAL_HOLLERITH).
Proof.
  intros Hrun Hlen.
  assert (exists i n w1,
            parse_unsigned src ptr = Some (i, n, w1) /\ i <> 0%nat
            /\ toupper (text_at src ptr).[i] = "H"%char /\ (i < len)%nat)
    as (i & n & w1 & Hu & Hi & HH & Hlt).
  { unfold parse_hollerith in Hrun. cbv zeta in Hrun.
    apply bind_Some in Hrun as ([i n] & w1 & w2 & Hu & Hrun & _).
    destruct (Nat.eqb_spec i 0) as [-> | Hi]; [by injection Hrun as <- _ _ |].
    destruct (Ascii.eqb_spec (toupper (text_at src ptr).[i]) "H") as [HH |];
      cbn [negb] in Hrun; [| by injection Hrun as <- _ _].
    destruct (sparse_parent_pointer src _) as [pptr |];
      [| by injection Hrun as <- _ _].
    destruct (string_empty _); [by injection Hrun as <- _ _ |].
    destruct (hollerith_copy _ _ _ _ _ _) as [[i' pos'] base'] eqn:Hcopy.
    apply hollerith_copy_ge in Hcopy. injection Hrun as <- _ _.
    exists i, n, w1. repeat split; try done. lia. }
  destruct (parse_unsigned_digits src ptr i n w1 Hu Hi) as [Hskip Hdig].
  destruct (isdigit_facts _ Hdig) as (Hsign & Hquote & _).
  destruct (letter_H_facts _ HH) as [Hdot Hund].
  split.
  - rewrite parse_literal__number_eq. cbv zeta.
    rewrite Hsign. cbv beta iota. rewrite drop_0.
    rewrite Hdig, <- Hskip, Hdot. cbn [negb andb].
    rewrite Hund.
    destruct (number_finish_result src ptr literal i 0 false) as (w' & ->).
    by eexists _, _, _.
  - unfold parse_literal, try_next. cbv zeta. cbn [Nat.eqb].
    unfold parse_literal__character, parse_character. cbv zeta.
    rewrite Hquote. cbn [bind ret Nat.eqb app].
    unfold parse_literal__hollerith.
    match goal with |- context [parse_hollerith alloc_fails src ptr ?s0] =>
      assert (exists s' w', parse_hollerith alloc_fails src ptr s0
                            = Some (len, s', w')) as (s' & w' & ->)
    end.
    { clear -Hrun Hlen. unfold parse_hollerith in *. cbv zeta in *.
      destruct (parse_unsigned src ptr) as [[[i n] w1] |]; [| done].
      cbn [bind] in *. destruct (i =? 0)%nat; [by injection Hrun as <- _ _ |].
      destruct (negb _); [by injection Hrun as <- _ _ |].
      destruct (sparse_parent_pointer src _) as [pptr |];
        [| by injection Hrun as <- _ _].
      destruct (string_empty _); [by injection Hrun as <- _ _ |].
      destruct (hollerith_copy _ _ _ _ _ _) as [[i' pos'] base'].
      injection Hrun as <- _ _. by eexists _, _. }
    assert ((len =? 0)%nat = false) as Hz by (by apply Nat.eqb_neq).
    do 8 (cbv beta iota zeta delta [bind ret]; rewrite ?Hz).
    by eexists _, _.
Qed.

Lemma hollerith_is_also_a_number_2Hab :
  (exists i l' w',
     parse_literal__number (plain_source (chars "2Hab")) 0 blank_literal
     = Some (i, l', w')
     /\ i <> 0%nat /\ (i < 4)%nat)
  /\ (exists l w',
        parse_literal never_fails no_keyword blank_literal
          (plain_source (chars "2Hab")) 0 blank_literal
        = Some (4%nat, l, w')
        /\ lit_type l = PARSE_LITERAL_HOLLERITH).
Proof.
  apply (hollerith_is_also_a_number never_fails no_keyword blank_literal
           (plain_source (chars "2Hab")) 0 STRING_EMPTY blank_literal 4
           (string_buf (chars "ab")) []).
  - reflexivity.
  - discriminate.
Defined.

(** ** Real literals *)

Lemma skip_digits_at (p pre ds rest : list ascii) :
  p = pre ++ ds ++ rest ->
  Forall decimal_digit ds -> isdigit rest.[0] = false ->
  skip_digits (drop (length pre) p) (length pre) = (length pre + length ds)%nat
  /\ p.[(length pre + length ds)%nat] = rest.[0]
  /\ p.[length pre] = (ds ++ rest).[0].
Proof.
  intros -> Hds Hrest. rewrite drop_app_length.
  split; [by apply skip_digits_run |]. split.
  - rewrite app_assoc.
    replace (length pre + length ds)%nat with (length (pre ++ ds) + 0)%nat
      by (rewrite length_app; lia).
    apply peek_app_r.
  - replace (length pre) with (length pre + 0)%nat at 1 by lia.
    apply peek_app_r.
Qed.

(** A real literal: an optional sign, digits, a dot and digits, with a
    digit on one side of the dot at least, followed by a character that
    is no digit and no underscore.  All of it is consumed, as a number of
    kind 0 (an exponent letter that follows is left where it is, see
    C1). *)
Theorem number_real src ptr literal sg ds1 ds2 rest :
  sg = [] \/ sg = ["+"%char] \/ sg = ["-"%char] ->
  Forall decimal_digit ds1 -> Forall decimal_digit ds2 ->
  ds1 <> [] \/ ds2 <> [] ->
  isdigit rest.[0] = false -> rest.[0] <> "_"%char ->
  text_at src ptr = sg ++ ds1 ++ "."%char :: ds2 ++ rest ->
  exists w,
    parse_literal__number src ptr literal
    = Some ((length sg + length ds1 + 1 + length ds2)%nat,
            set_number
              (str_ref ptr (length sg + length ds1 + 1 + length ds2))
              (set_kind 0 (set_type PARSE_LITERAL_NUMBER literal)), w).
Proof.
  intros Hsg Hds1 Hds2 Hone Hrest Hund Htext.
  set (p := text_at src ptr) in *.
  destruct (skip_digits_at p sg ds1 ("."%char :: ds2 ++ rest) Htext Hds1 eq_refl)
    as (Hskip1 & Hdot & Hfirst).
  assert (p = (sg ++ ds1 ++ ["."%char]) ++ ds2 ++ rest) as Htext2
    by (by rewrite Htext, <- !app_assoc).
  destruct (skip_digits_at p (sg ++ ds1 ++ ["."%char]) ds2 rest Htext2 Hds2 Hrest)
    as (Hskip2 & Hend & Hsecond).
  assert (length (sg ++ ds1 ++ ["."%char]) = (length sg + length ds1 + 1)%nat)
    as Hlen by (rewrite !length_app; cbn; lia).
  rewrite Hlen in Hskip2, Hend, Hsecond.
  assert ((if is_sign p.[0] then 1%nat else 0%nat) = length sg) as Hi0.
  { destruct Hsg as [-> | [-> | ->]]; [| by rewrite Htext | by rewrite Htext].
    cbn [length app] in *. rewrite Hfirst.
    destruct ds1 as [| c ds1]; [done |]. cbn [app]. rewrite peek_0.
    by destruct (decimal_digit_isdigit c (Forall_inv Hds1)) as [_ ->]. }
  assert (isdigit p.[length sg] || isdigit p.[(length sg + length ds1 + 1)%nat]
          = true) as Hdigit.
  { rewrite Hfirst, Hsecond. destruct Hone as [Hne | Hne].
    - destruct ds1 as [| c ds1]; [done |]. cbn [app]. rewrite peek_0.
      by destruct (decimal_digit_isdigit c (Forall_inv Hds1)) as [-> _].
    - destruct ds2 as [| c ds2]; [done |]. cbn [app]. rewrite (peek_0 c).
      destruct (decimal_digit_isdigit c (Forall_inv Hds2)) as [-> _].
      apply orb_true_r. }
  rewrite parse_literal__number_eq. cbv zeta. fold p.
  rewrite Hi0, Hskip1, Hdot, peek_0. cbn [Ascii.eqb Bool.eqb andb].
  rewrite Hskip2, Hdigit, Hend. cbn [negb andb].
  apply Ascii.eqb_neq in Hund. rewrite Hund.
  apply number_finish_result.
Qed.

Lemma number_real_examples :
  exists w,
    parse_literal__number (plain_source (chars "-.5e3")) 0 blank_literal
    = Some ((length (chars "-") + length (@nil ascii) + 1 + length (chars "5"))%nat,
            set_number
              (str_ref 0
                 (length (chars "-") + length (@nil ascii) + 1
                  + length (chars "5")))
              (set_kind 0 (set_type PARSE_LITERAL_NUMBER blank_literal)), w).
Proof.
  apply (number_real (plain_source (chars "-.5e3")) 0 blank_literal
           (chars "-") [] (chars "5") (chars "e3")).
  - right. by right.
  - constructor.
  - by apply decimal_digits_of_string.
  - right. discriminate.
  - reflexivity.
  - discriminate.
  - reflexivity.
Defined.

(** ** Whitespace inside an unquoted run *)

(** In unquoted mode the engine asks the source whether the characters
    it consumed are contiguous.  When they are not, the match stands,
    with the same length and value, and one warning is added; nothing
    else is ever reported for a run that fits 64 bits. *)
Theorem engine_whitespace_is_a_warning src ptr s rest :
  Forall decimal_digit s -> s <> [] -> run_value 10 s < 2 ^ 64 ->
  is_base_digit rest.[0] 10 = None ->
  text_at src ptr = s ++ rest ->
  parse_literal__base src ptr 10 false true
  = Some (length s, run_value 10 s,
          if sparse_sequential src ptr (length s) then []
          else [Warning ptr "Unexpected whitespace in literal"]).
Proof.
  intros Hs Hne Hfit Hrest Htext. unfold parse_literal__base. rewrite Htext.
  cbv zeta. cbn [andb]. destruct s as [| c s]; [done |].
  cbn [app]. rewrite peek_0.
  destruct (decimal_digit_base c (Forall_inv Hs)) as [-> _].
  change (drop 0 (c :: s ++ rest)) with ((c :: s) ++ rest).
  rewrite base_loop_exact by done. cbn [andb negb].
  by destruct (sparse_sequential _ _ _).
Qed.

Lemma engine_whitespace_is_a_warning_12 :
  parse_literal__base
    {| sparse_strz := chars "12+";
       sparse_parent_pointer := fun _ => None;
       sparse_sequential := fun _ _ => false |} 0 10 false true
  = Some (2%nat, 12, [Warning 0%nat "Unexpected whitespace in literal"]).
Proof.
  apply (engine_whitespace_is_a_warning
           {| sparse_strz := chars "12+";
              sparse_parent_pointer := fun _ => None;
              sparse_sequential := fun _ _ => false |} 0
           (chars "12") (chars "+")).
  - by apply decimal_digits_of_string.
  - discriminate.
  - by vm_compute.
  - reflexivity.
  - reflexivity.
Defined.
